(** * Snake: the game logic of js.js, embedded and verified

    The JavaScript program keeps its state in the singleton objects [settings],
    [config], [snake], [food], [status], [score] and [game].  Each object becomes
    a module here, its fields a record, and each method a function that takes
    the object (or the whole game) and returns the updated one.

    What is embedded and how:
    - coordinates, settings and the score are JavaScript integers: [Z];
    - directions, the status and key codes are JavaScript strings: [string];
    - a method that can throw, or whose loop can spin, returns a [result];
    - [Math.random()] is a supply of future values kept in the game state,
      each a rational [r]; [Math.floor(Math.random() * n)] is [Qfloor (r * n)].
      The properties hold for every supply; where it matters that a value
      lies in the unit interval, the statement says so;
    - [setInterval]/[clearInterval] act on the list of live interval ids.

    The DOM (the table of cells, the score element, the play button) is only
    ever written by the game logic and never read back, so [score.render] and
    [setPlayButton] have no counterpart below, and the game's methods are
    embedded without their calls of [render].  The table of cells is embedded
    on its own, as the module [map], with [game.render] on top of it. *)

From Stdlib Require Import ZArith QArith Qround List Finite String Bool Lia.
Import ListNotations.

Open Scope string_scope.
Open Scope list_scope.
Open Scope Z_scope.

(** ** Results of methods *)

(** Why a method did not return a value of the model.
    - [TypeError]: a property of [undefined] was read;
    - [NotAPoint]: the body would receive a value that is not an [{x, y}] pair
      ([undefined] or [{}]), which the lists of points below cannot hold;
    - [OutOfDraws]: the supplied values of [Math.random()] ended while the
      sampling loop of [getRandomFreeCoordinates] was still running. *)
Inductive failure : Type :=
  | TypeError
  | NotAPoint
  | OutOfDraws.

Inductive result (A : Type) : Type :=
  | Ok (a : A)
  | Fail (e : failure).

Arguments Ok {A} a.
Arguments Fail {A} e.

Definition bind {A B : Type} (r : result A) (k : A -> result B) : result B :=
  match r with
  | Ok a => k a
  | Fail e => Fail e
  end.

Notation "x <- r ;; k" := (bind r (fun x => k))
  (at level 61, r at next level, right associativity).
Notation "' pat <- r ;; k" := (bind r (fun x => match x with pat => k end))
  (at level 61, pat pattern, r at next level, right associativity).

(** ** Points *)

Record Point : Type := { x : Z; y : Z }.

(** The comparison [a.x === b.x && a.y === b.y] that the source writes out in
    [snake.isOnPoint], [food.isOnPoint] and [getRandomFreeCoordinates]. *)
Definition samePoint (a b : Point) : bool :=
  (x a =? x b) && (y a =? y b).

(** ** settings and config *)

Record Settings : Type := {
  rowsCount : Z;
  colsCount : Z;
  speed : Z;
  winFoodCount : Z
}.

Definition settings : Settings :=
  {| rowsCount := 21; colsCount := 21; speed := 2; winFoodCount := 50 |}.

(** The object handed to [game.init]: any of the four keys may be absent. *)
Record UserSettings : Type := {
  userRowsCount : option Z;
  userColsCount : option Z;
  userSpeed : option Z;
  userWinFoodCount : option Z
}.

(** The [{isValid, errors}] object built by [config.validate]. *)
Record Validation : Type := {
  isValid : bool;
  errors : list string
}.

Module config.

Definition assign (old : Z) (new : option Z) : Z :=
  match new with
  | Some v => v
  | None => old
  end.

Definition init (this : Settings) (userSettings : UserSettings) : Settings :=
  {| rowsCount := assign (rowsCount this) (userRowsCount userSettings);
     colsCount := assign (colsCount this) (userColsCount userSettings);
     speed := assign (speed this) (userSpeed userSettings);
     winFoodCount := assign (winFoodCount this) (userWinFoodCount userSettings) |}.

Definition getRowsCount (this : Settings) : Z := rowsCount this.
Definition getColsCount (this : Settings) : Z := colsCount this.
Definition getSpeed (this : Settings) : Z := speed this.
Definition getWinFoodCount (this : Settings) : Z := winFoodCount this.

Definition rowsCountError : string :=
  "Неверные настройки, значение rowsCount должно быть в диапазоне [10, 30].".
Definition colsCountError : string :=
  "Неверные настройки, значение colsCount должно быть в диапазоне [10, 30].".
Definition speedError : string :=
  "Неверные настройки, значение speed должно быть в диапазоне [1, 10].".
Definition winFoodCountError : string :=
  "Неверные настройки, значение winLength должно быть в диапазоне [5, 50].".

(** One [if] statement of [validate]: on a violation the flag is cleared and
    the message pushed at the end of [errors]. *)
Definition check (violated : bool) (message : string) (result : Validation)
  : Validation :=
  if violated
  then {| isValid := false; errors := errors result ++ [message] |}
  else result.

Definition validate (this : Settings) : Validation :=
  let result := {| isValid := true; errors := [] |} in
  let result :=
    check ((rowsCount this <? 10) || (rowsCount this >? 30)) rowsCountError result in
  let result :=
    check ((colsCount this <? 10) || (colsCount this >? 30)) colsCountError result in
  let result :=
    check ((speed this <? 1) || (speed this >? 10)) speedError result in
  let result :=
    check ((winFoodCount this <? 5) || (winFoodCount this >? 50))
      winFoodCountError result in
  result.

End config.

(** ** snake *)

Module snake.

Record t : Type := {
  body : list Point;
  direction : string;
  lastStepDirection : string;
  maxX : Z;
  maxY : Z
}.

Definition init (startBody : list Point) (direction : string) (maxX maxY : Z) : t :=
  {| body := startBody;
     direction := direction;
     lastStepDirection := direction;
     maxX := maxX;
     maxY := maxY |}.

Definition getBody (this : t) : list Point := body this.

Definition getLastStepDirection (this : t) : string := lastStepDirection this.

(** [this.body.some(...)].  The argument is [None] when the caller passes
    [undefined]; the callback then throws on the first segment it visits, and
    is never run on an empty body. *)
Definition isOnPoint (this : t) (point : option Point) : result bool :=
  match point with
  | Some point =>
      Ok (existsb (fun snakePoint => samePoint snakePoint point) (body this))
  | None =>
      match body this with
      | [] => Ok false
      | _ :: _ => Fail TypeError
      end
  end.

(** The [switch] falls through to an implicit [undefined] ([Ok None]) for a
    direction that is none of the four; in the four cases [firstPoint.x] is
    read, which throws when the body is empty. *)
Definition getNextStepHeadPoint (this : t) : result (option Point) :=
  let withFirstPoint (next : Point -> Point) : result (option Point) :=
    match body this with
    | firstPoint :: _ => Ok (Some (next firstPoint))
    | [] => Fail TypeError
    end in
  if String.eqb (direction this) "up" then
    withFirstPoint (fun firstPoint =>
      {| x := x firstPoint;
         y := if negb (y firstPoint =? 0) then y firstPoint - 1 else maxY this |})
  else if String.eqb (direction this) "right" then
    withFirstPoint (fun firstPoint =>
      {| x := if negb (x firstPoint =? maxX this) then x firstPoint + 1 else 0;
         y := y firstPoint |})
  else if String.eqb (direction this) "down" then
    withFirstPoint (fun firstPoint =>
      {| x := x firstPoint;
         y := if negb (y firstPoint =? maxY this) then y firstPoint + 1 else 0 |})
  else if String.eqb (direction this) "left" then
    withFirstPoint (fun firstPoint =>
      {| x := if negb (x firstPoint =? 0) then x firstPoint - 1 else maxX this;
         y := y firstPoint |})
  else Ok None.

Definition setBody (this : t) (newBody : list Point) : t :=
  {| body := newBody;
     direction := direction this;
     lastStepDirection := lastStepDirection this;
     maxX := maxX this;
     maxY := maxY this |}.

(** [unshift] of the next head, then [pop]. *)
Definition makeStep (this : t) : result t :=
  let this :=
    {| body := body this;
       direction := direction this;
       lastStepDirection := direction this;
       maxX := maxX this;
       maxY := maxY this |} in
  head <- getNextStepHeadPoint this ;;
  match head with
  | Some head => Ok (setBody this (removelast (head :: body this)))
  | None => Fail NotAPoint
  end.

(** On an empty body [this.body[-1]] is [undefined] and the clone is [{}]. *)
Definition growUp (this : t) : result t :=
  match body this with
  | [] => Fail NotAPoint
  | firstPoint :: rest =>
      let lastBodyPoint := last (body this) firstPoint in
      let lastBodyPointClone := {| x := x lastBodyPoint; y := y lastBodyPoint |} in
      Ok (setBody this (body this ++ [lastBodyPointClone]))
  end.

Definition setDirection (this : t) (direction : string) : t :=
  {| body := body this;
     direction := direction;
     lastStepDirection := lastStepDirection this;
     maxX := maxX this;
     maxY := maxY this |}.

End snake.

(** ** food *)

Module food.

(** The fields [x] and [y] are [null] until the first [setCoordinates], and
    always written together: [None] stands for the pair of [null]s. *)
Definition t : Type := option Point.

Definition getCoordinates (this : t) : option Point := this.

Definition setCoordinates (this : t) (point : Point) : t :=
  Some {| x := x point; y := y point |}.

(** [this.x === point.x && this.y === point.y]: reading [point.x] throws for
    [undefined]; a [null] coordinate is strictly equal to no number. *)
Definition isOnPoint (this : t) (point : option Point) : result bool :=
  match point with
  | None => Fail TypeError
  | Some point =>
      match this with
      | Some foodPoint => Ok (samePoint foodPoint point)
      | None => Ok false
      end
  end.

End food.

(** ** status *)

Module status.

Definition t : Type := string.

Definition setPlaying (this : t) : t := "playing".
Definition setStopped (this : t) : t := "stopped".
Definition setFinished (this : t) : t := "finished".
Definition isPlaying (this : t) : bool := String.eqb this "playing".
Definition isStopped (this : t) : bool := String.eqb this "stopped".

End status.

(** ** score *)

Module score.

Definition t : Type := Z.

Definition increment (this : t) : t := this + 1.
Definition drop (this : t) : t := 0.
Definition init (this : t) : t := drop this.

End score.

(** ** map *)

Module map.

(** A [td] element is known by the key [x<col>_y<row>] under which [init]
    stores it in [cells]; the key is kept as the pair of numbers it is built
    from.  What the game changes of an element is its list of classes.
    [usedCells] holds the elements by their keys. *)
Record t : Type := {
  cells : list (Point * list string);
  usedCells : list Point
}.

(** [classList.add(token)]: the token is appended unless it is there. *)
Definition classListAdd (token : string) (classes : list string) : list string :=
  if existsb (String.eqb token) classes then classes else classes ++ [token].

(** The inner loop of [init]: the cells of one row. *)
Definition rowOfCells (row : Z) (colsCount : Z) : list (Point * list string) :=
  List.map
    (fun col => ({| x := Z.of_nat col; y := row |}, classListAdd "cell" []))
    (seq 0 (Z.to_nat colsCount)).

Definition init (rowsCount colsCount : Z) : t :=
  {| cells :=
       flat_map (fun row => rowOfCells (Z.of_nat row) colsCount)
         (seq 0 (Z.to_nat rowsCount));
     usedCells := [] |}.

(** [this.cells[key]]: [None] is [undefined]. *)
Definition getCell (this : t) (key : Point) : option (list string) :=
  match find (fun entry => samePoint (fst entry) key) (cells this) with
  | Some entry => Some (snd entry)
  | None => None
  end.

(** A change of the class list of the element stored under [key]. *)
Definition setClasses (this : t) (key : Point)
    (change : list string -> list string) : t :=
  {| cells :=
       List.map
         (fun entry =>
            if samePoint (fst entry) key then (fst entry, change (snd entry))
            else entry)
         (cells this);
     usedCells := usedCells this |}.

Definition pushUsedCell (this : t) (key : Point) : t :=
  {| cells := cells this; usedCells := usedCells this ++ [key] |}.

(** The first loop of [render]: [cell.className = 'cell'] for every used
    cell. *)
Definition clearUsedCells (this : t) : t :=
  fold_left (fun m cell => setClasses m cell (fun _ => ["cell"]))
    (usedCells this) this.

(** The [forEach] of [render], from index [idx] on: reading [classList] of a
    cell that does not exist throws. *)
Fixpoint drawSnake (this : t) (snakePointsArray : list Point) (idx : nat)
  : result t :=
  match snakePointsArray with
  | [] => Ok this
  | point :: rest =>
      match getCell this point with
      | None => Fail TypeError
      | Some _ =>
          let this :=
            setClasses this point
              (classListAdd (if Nat.eqb idx 0 then "snakeHead" else "snakeBody")) in
          let this := pushUsedCell this point in
          drawSnake this rest (S idx)
      end
  end.

(** [foodPoint] is [None] for the pair of [null]s of food never placed: no
    cell has the key built from it. *)
Definition render (this : t) (snakePointsArray : list Point)
    (foodPoint : option Point) : result t :=
  let this := clearUsedCells this in
  let this := {| cells := cells this; usedCells := [] |} in
  this <- drawSnake this snakePointsArray 0 ;;
  match foodPoint with
  | None => Fail TypeError
  | Some foodPoint =>
      match getCell this foodPoint with
      | None => Fail TypeError
      | Some _ =>
          let this := setClasses this foodPoint (classListAdd "food") in
          Ok (pushUsedCell this foodPoint)
      end
  end.

End map.

(** ** game *)

Module game.

(** The fields of the [game] object ([map] left out), followed by the part
    of the browser the game logic reads back: the ids of the intervals that
    are live, the id [setInterval] hands out next, and the values that the
    coming calls of [Math.random()] return, in order. *)
Record t : Type := {
  config : Settings;
  snake : snake.t;
  food : food.t;
  status : status.t;
  score : score.t;
  tickInterval : option nat;
  intervals : list nat;
  nextInterval : nat;
  randoms : list Q
}.

Definition setConfig (this : t) (v : Settings) : t :=
  {| config := v; snake := snake this; food := food this; status := status this;
     score := score this; tickInterval := tickInterval this;
     intervals := intervals this; nextInterval := nextInterval this;
     randoms := randoms this |}.

Definition setSnake (this : t) (v : snake.t) : t :=
  {| config := config this; snake := v; food := food this; status := status this;
     score := score this; tickInterval := tickInterval this;
     intervals := intervals this; nextInterval := nextInterval this;
     randoms := randoms this |}.

Definition setFood (this : t) (v : food.t) : t :=
  {| config := config this; snake := snake this; food := v; status := status this;
     score := score this; tickInterval := tickInterval this;
     intervals := intervals this; nextInterval := nextInterval this;
     randoms := randoms this |}.

Definition setStatus (this : t) (v : status.t) : t :=
  {| config := config this; snake := snake this; food := food this; status := v;
     score := score this; tickInterval := tickInterval this;
     intervals := intervals this; nextInterval := nextInterval this;
     randoms := randoms this |}.

Definition setScore (this : t) (v : score.t) : t :=
  {| config := config this; snake := snake this; food := food this;
     status := status this; score := v; tickInterval := tickInterval this;
     intervals := intervals this; nextInterval := nextInterval this;
     randoms := randoms this |}.

Definition setRandoms (this : t) (v : list Q) : t :=
  {| config := config this; snake := snake this; food := food this;
     status := status this; score := score this; tickInterval := tickInterval this;
     intervals := intervals this; nextInterval := nextInterval this;
     randoms := v |}.

(** [this.tickInterval = setInterval(...)]: a fresh id becomes live and is
    stored. *)
Definition setInterval (this : t) : t :=
  {| config := config this; snake := snake this; food := food this;
     status := status this; score := score this;
     tickInterval := Some (nextInterval this);
     intervals := nextInterval this :: intervals this;
     nextInterval := S (nextInterval this);
     randoms := randoms this |}.

(** [clearInterval(id)]: the interval of that id, if live, is cancelled;
    [null] and ids that are not live are ignored. *)
Definition clearInterval (this : t) (id : option nat) : t :=
  match id with
  | None => this
  | Some id =>
      {| config := config this; snake := snake this; food := food this;
         status := status this; score := score this;
         tickInterval := tickInterval this;
         intervals := filter (fun live => negb (Nat.eqb live id)) (intervals this);
         nextInterval := nextInterval this;
         randoms := randoms this |}
  end.

Definition getStartSnakeBody (this : t) : list Point :=
  [ {| x := config.getColsCount (config this) / 2;
       y := config.getRowsCount (config this) / 2 |} ].

(** [Math.floor(Math.random() * n)] for the value [r] of [Math.random()]. *)
Definition floorRandom (r : Q) (n : Z) : Z := Qfloor (r * inject_Z n).

(** The array [[this.food.getCoordinates(), ...this.snake.getBody()]].  Before
    the first placement the food's coordinates are both [null] and that entry
    equals no sampled point, so it is left out. *)
Definition exclude (this : t) : list Point :=
  match food.getCoordinates (food this) with
  | Some foodPoint => foodPoint :: snake.getBody (snake this)
  | None => snake.getBody (snake this)
  end.

(** The [while (true)] loop: every round draws [x], then [y], and returns
    the point unless it is excluded.  The loop is run on the draws it is
    given and reports [OutOfDraws] if they end first. *)
Fixpoint sample (exclude : list Point) (colsCount rowsCount : Z) (draws : list Q)
  : result (Point * list Q) :=
  match draws with
  | rx :: ry :: draws =>
      let rndPoint :=
        {| x := floorRandom rx colsCount; y := floorRandom ry rowsCount |} in
      if negb (existsb (fun exPoint => samePoint rndPoint exPoint) exclude)
      then Ok (rndPoint, draws)
      else sample exclude colsCount rowsCount draws
  | _ => Fail OutOfDraws
  end.

(** Returns the point together with the game whose supply of random values
    has been used up to it. *)
Definition getRandomFreeCoordinates (this : t) : result (Point * t) :=
  '(rndPoint, draws) <-
    sample (exclude this)
      (config.getColsCount (config this)) (config.getRowsCount (config this))
      (randoms this) ;;
  Ok (rndPoint, setRandoms this draws).

Definition play (this : t) : t :=
  let this := setStatus this (status.setPlaying (status this)) in
  setInterval this.

Definition stop (this : t) : t :=
  let this := setStatus this (status.setStopped (status this)) in
  clearInterval this (tickInterval this).

Definition finish (this : t) : t :=
  let this := setStatus this (status.setFinished (status this)) in
  clearInterval this (tickInterval this).

Definition reset (this : t) : result t :=
  let this := stop this in
  let this := setScore this (score.drop (score this)) in
  let this :=
    setSnake this
      (snake.init (getStartSnakeBody this) "up"
         (config.getColsCount (config this) - 1)
         (config.getRowsCount (config this) - 1)) in
  '(point, this) <- getRandomFreeCoordinates this ;;
  Ok (setFood this (food.setCoordinates (food this) point)).

Definition canSetDirection (this : t) (direction : string) : bool :=
  let lastStepDirection := snake.getLastStepDirection (snake this) in
  String.eqb direction "up" && negb (String.eqb lastStepDirection "down") ||
  String.eqb direction "right" && negb (String.eqb lastStepDirection "left") ||
  String.eqb direction "down" && negb (String.eqb lastStepDirection "up") ||
  String.eqb direction "left" && negb (String.eqb lastStepDirection "right").

Definition isGameWon (this : t) : bool :=
  Z.of_nat (List.length (snake.getBody (snake this)))
    >? config.getWinFoodCount (config this).

Definition canMakeStep (this : t) : result bool :=
  head <- snake.getNextStepHeadPoint (snake this) ;;
  onSnake <- snake.isOnPoint (snake this) head ;;
  Ok (negb onSnake).

(** The body of the [if] of [tickHandler] that is run when the food is on
    the next head point. *)
Definition eat (this : t) : result t :=
  grown <- snake.growUp (snake this) ;;
  let this := setSnake this grown in
  let this := setScore this (score.increment (score this)) in
  '(point, this) <- getRandomFreeCoordinates this ;;
  let this := setFood this (food.setCoordinates (food this) point) in
  Ok (if isGameWon this then finish this else this).

Definition tickHandler (this : t) : result t :=
  can <- canMakeStep this ;;
  if negb can then Ok (finish this)
  else
    head <- snake.getNextStepHeadPoint (snake this) ;;
    onFood <- food.isOnPoint (food this) head ;;
    this <- (if onFood then eat this else Ok this) ;;
    stepped <- snake.makeStep (snake this) ;;
    Ok (setSnake this stepped).

Definition playClickHandler (this : t) : t :=
  if status.isPlaying (status this) then stop this
  else if status.isStopped (status this) then play this
  else this.

Definition newGameClickHandler (this : t) : result t := reset this.

Definition getDirectionByCode (code : string) : string :=
  if String.eqb code "KeyW" || String.eqb code "ArrowUp" then "up"
  else if String.eqb code "KeyD" || String.eqb code "ArrowRight" then "right"
  else if String.eqb code "KeyS" || String.eqb code "ArrowDown" then "down"
  else if String.eqb code "KeyA" || String.eqb code "ArrowLeft" then "left"
  else "".

Definition keyDownHandler (this : t) (code : string) : t :=
  if negb (status.isPlaying (status this)) then this
  else
    let direction := getDirectionByCode code in
    if canSetDirection this direction
    then setSnake this (snake.setDirection (snake this) direction)
    else this.

(** With invalid settings [init] returns after merging them: no handler is
    installed and nothing else of the game is touched. *)
Definition init (this : t) (userSettings : UserSettings) : result t :=
  let this := setConfig this (config.init (config this) userSettings) in
  let validation := config.validate (config this) in
  if negb (isValid validation) then Ok this
  else
    let this := setScore this (score.init (score this)) in
    reset this.

(** [this.map.render(...)], on the map given. *)
Definition render (this : t) (display : map.t) : result map.t :=
  map.render display (snake.getBody (snake this)) (food.getCoordinates (food this)).

End game.

(** ** The running game *)

(** What the browser delivers once [setEventHandlers] has run: a tick of a
    live interval, a click on either button, or a key press. *)
Inductive event : Type :=
  | Tick
  | PlayClick
  | NewGameClick
  | KeyDown (code : string).

Definition handle (e : event) (g : game.t) : result game.t :=
  match e with
  | Tick => game.tickHandler g
  | PlayClick => Ok (game.playClickHandler g)
  | NewGameClick => game.newGameClickHandler g
  | KeyDown code => Ok (game.keyDownHandler g code)
  end.

(** Only a live interval ticks; every interval the game starts runs
    [tickHandler]. *)
Definition enabled (e : event) (g : game.t) : Prop :=
  match e with
  | Tick => game.intervals g <> []
  | _ => True
  end.

Inductive step (g g' : game.t) : Prop :=
  | step_event (e : event) (He : enabled e g) (Hh : handle e g = Ok g').

(** [steps g g']: the game gets from [g] to [g'] by handling events. *)
Inductive steps (g : game.t) : game.t -> Prop :=
  | steps_refl : steps g g
  | steps_then (g1 g2 : game.t) (H1 : steps g g1) (H2 : step g1 g2) : steps g g2.

(** The states of a game that was started: [game.init] ran on a page with no
    live interval, found the settings valid, and events followed. *)
Inductive reachable : game.t -> Prop :=
  | reachable_init (g0 g : game.t) (userSettings : UserSettings)
      (Hfresh : game.intervals g0 = [])
      (Hvalid : isValid (config.validate (config.init (game.config g0) userSettings)) = true)
      (Hinit : game.init g0 userSettings = Ok g) : reachable g
  | reachable_step (g g' : game.t) (Hg : reachable g) (Hs : step g g') : reachable g'.

(** * Vocabulary of the properties *)

(** The point that a pair of draws is turned into. *)
Definition drawn (cols rows : Z) (rx ry : Q) : Point :=
  {| x := game.floorRandom rx cols; y := game.floorRandom ry rows |}.

(** [findsFree exclude cols rows draws]: some round of the loop, run on
    [draws], draws a point outside [exclude]. *)
Inductive findsFree (exclude : list Point) (cols rows : Z) : list Q -> Prop :=
  | findsFree_now (rx ry : Q) (draws : list Q)
      (Hfree : ~ In (drawn cols rows rx ry) exclude)
    : findsFree exclude cols rows (rx :: ry :: draws)
  | findsFree_later (rx ry : Q) (draws : list Q)
      (Hlater : findsFree exclude cols rows draws)
    : findsFree exclude cols rows (rx :: ry :: draws).

(** A value of [Math.random()]: a rational [r] with [0 <= r < 1]. *)
Definition unitInterval (r : Q) : Prop := (0 <= r)%Q /\ (r < 1)%Q.

(** The cells of the board. *)
Definition onBoard (cols rows : Z) (p : Point) : Prop :=
  0 <= x p < cols /\ 0 <= y p < rows.

(** The range [lo, hi] of a setting, as the specification writes it. *)
Definition inRange (lo hi v : Z) : bool := (lo <=? v) && (v <=? hi).

(** The message a setting contributes: none inside its range, its own one
    outside. *)
Definition report (lo hi v : Z) (message : string) : list string :=
  if inRange lo hi v then [] else [message].

(** [reversal d l]: [d] is the direct reversal of [l] (up/down, left/right). *)
Definition reversal (d l : string) : Prop :=
  (d = "up" /\ l = "down") \/ (d = "down" /\ l = "up") \/
  (d = "left" /\ l = "right") \/ (d = "right" /\ l = "left").

(** The snake after [makeStep]: the next head in front, the last segment
    dropped, and the direction recorded as the last step's. *)
Definition stepped (sn : snake.t) (head : Point) : snake.t :=
  {| snake.body := removelast (head :: snake.body sn);
     snake.direction := snake.direction sn;
     snake.lastStepDirection := snake.direction sn;
     snake.maxX := snake.maxX sn;
     snake.maxY := snake.maxY sn |}.

(** The body after [growUp]: a copy of the last segment at the end. *)
Definition grown (body : list Point) (firstPoint : Point) : list Point :=
  body ++ [last body firstPoint].

(** The game after a tick that ate the food at [head] and placed the new food
    at [point], with [draws] left of the random supply. *)
Definition fed (g : game.t) (head point : Point) (draws : list Q) : game.t :=
  let won :=
    Z.of_nat (List.length (snake.body (game.snake g)) + 1)
      >? winFoodCount (game.config g) in
  {| game.config := game.config g;
     game.snake :=
       {| snake.body := head :: snake.body (game.snake g);
          snake.direction := snake.direction (game.snake g);
          snake.lastStepDirection := snake.direction (game.snake g);
          snake.maxX := snake.maxX (game.snake g);
          snake.maxY := snake.maxY (game.snake g) |};
     game.food := Some point;
     game.status := if won then "finished" else game.status g;
     game.score := game.score g + 1;
     game.tickInterval := game.tickInterval g;
     game.intervals :=
       if won then game.intervals (game.clearInterval g (game.tickInterval g))
       else game.intervals g;
     game.nextInterval := game.nextInterval g;
     game.randoms := draws |}.

(** The game at the call of [getRandomFreeCoordinates] in an eating tick:
    the snake has grown and the score is incremented. *)
Definition atPlacement (g : game.t) (grownSnake : snake.t) : game.t :=
  game.setScore (game.setSnake g grownSnake) (score.increment (game.score g)).

(** The length of the snake body, as the integer [body.length]. *)
Definition bodyLength (g : game.t) : Z :=
  Z.of_nat (List.length (snake.body (game.snake g))).

(** A tick of [g] eats: it gets past the collision check and finds the food
    on the next head point. *)
Definition eatsFood (g : game.t) : Prop :=
  exists head,
    snake.getNextStepHeadPoint (game.snake g) = Ok (Some head)
    /\ game.canMakeStep g = Ok true
    /\ food.isOnPoint (game.food g) (Some head) = Ok true.

(** While the game is playing exactly one interval is live, the one stored in
    [tickInterval]; otherwise none is. *)
Definition intervalInvariant (g : game.t) : Prop :=
  (game.status g = "playing"
   /\ exists id, game.tickInterval g = Some id /\ game.intervals g = [id])
  \/ (game.status g <> "playing" /\ game.intervals g = []).

(** The cell of index [i], counting along the rows of a board with [cols]
    columns. *)
Definition cellAt (cols : Z) (i : nat) : Point :=
  {| x := Z.of_nat i mod cols; y := Z.of_nat i / cols |}.

(** All cells of the board, each once. *)
Definition cells (cols rows : Z) : list Point :=
  map (cellAt cols) (seq 0 (Z.to_nat (cols * rows))).

(** What every started game keeps: the snake has a head and one of the four
    directions, so that no handler reads a property of [undefined]. *)
Definition wellFormed (g : game.t) : Prop :=
  snake.body (game.snake g) <> []
  /\ In (snake.direction (game.snake g)) ["up"; "right"; "down"; "left"].

(** The settings are valid, the snake's bounds are the last column and the
    last row of the board, and every segment lies on the board. *)
Definition boardInvariant (g : game.t) : Prop :=
  isValid (config.validate (game.config g)) = true
  /\ snake.maxX (game.snake g) = colsCount (game.config g) - 1
  /\ snake.maxY (game.snake g) = rowsCount (game.config g) - 1
  /\ Forall (onBoard (colsCount (game.config g)) (rowsCount (game.config g)))
       (snake.body (game.snake g)).

(** The food is placed, and not on the snake. *)
Definition foodOffSnake (g : game.t) : Prop :=
  exists foodPoint,
    game.food g = Some foodPoint /\ ~ In foodPoint (snake.body (game.snake g)).

(** The head is where a step in the last step's direction takes the second
    segment. *)
Definition neckInvariant (g : game.t) : Prop :=
  forall head neck rest,
    snake.body (game.snake g) = head :: neck :: rest ->
    snake.getNextStepHeadPoint
      (snake.init [neck] (snake.lastStepDirection (game.snake g))
         (snake.maxX (game.snake g)) (snake.maxY (game.snake g))) =
    Ok (Some head).

(** What a started game keeps, state after state. *)
Definition playable (g : game.t) : Prop :=
  wellFormed g
  /\ boardInvariant g
  /\ foodOffSnake g
  /\ ~ reversal (snake.direction (game.snake g))
         (snake.lastStepDirection (game.snake g))
  /\ neckInvariant g.

(** Every cell of the display that is not a used cell has the one class it
    was created with: what [map.init] sets up and [map.render] keeps. *)
Definition clean (display : map.t) : Prop :=
  forall p classes,
    map.getCell display p = Some classes ->
    ~ In p (map.usedCells display) ->
    classes = ["cell"].

(** The classes of the cell [p] when the snake [body] and the food are
    displayed. *)
Definition shown (body : list Point) (foodPoint p : Point) : list string :=
  ["cell"]
  ++ (if match body with head :: _ => samePoint p head | [] => false end
      then ["snakeHead"] else [])
  ++ (if existsb (fun point => samePoint p point) (tl body)
      then ["snakeBody"] else [])
  ++ (if samePoint p foodPoint then ["food"] else []).

(** * Example games *)

(** A game in play on the default board: the snake has just started upwards
    from the centre, the food lies on the cell above it, one interval is
    live, and four values of [Math.random()] are to come. *)
Definition aboutToEat : game.t :=
  {| game.config := settings;
     game.snake := snake.init [ {| x := 10; y := 10 |} ] "up" 20 20;
     game.food := Some {| x := 10; y := 9 |};
     game.status := "playing";
     game.score := 0;
     game.tickInterval := Some 0%nat;
     game.intervals := [0%nat];
     game.nextInterval := 1%nat;
     game.randoms := [(10 # 21)%Q; (9 # 21)%Q; (3 # 21)%Q; (4 # 21)%Q] |}.

(** A snake on the right edge of the default board, heading right. *)
Definition atRightEdge : snake.t :=
  snake.init [ {| x := 20; y := 7 |}; {| x := 19; y := 7 |} ] "right" 20 20.

(** A snake of length 4 that turns right into its own tail. *)
Definition coiled : game.t :=
  {| game.config := settings;
     game.snake :=
       {| snake.body := [ {| x := 5; y := 5 |}; {| x := 5; y := 6 |};
                          {| x := 6; y := 6 |}; {| x := 6; y := 5 |} ];
          snake.direction := "right";
          snake.lastStepDirection := "up";
          snake.maxX := 20;
          snake.maxY := 20 |};
     game.food := Some {| x := 2; y := 3 |};
     game.status := "playing";
     game.score := 3;
     game.tickInterval := Some 0%nat;
     game.intervals := [0%nat];
     game.nextInterval := 1%nat;
     game.randoms := [] |}.

(** A game in play with [winFoodCount = 5]: a snake of length 5 heading up,
    the food on the cell above its head. *)
Definition aboutToWin : game.t :=
  {| game.config :=
       {| rowsCount := 21; colsCount := 21; speed := 2; winFoodCount := 5 |};
     game.snake :=
       snake.init [ {| x := 10; y := 10 |}; {| x := 10; y := 11 |};
                    {| x := 10; y := 12 |}; {| x := 10; y := 13 |};
                    {| x := 10; y := 14 |} ] "up" 20 20;
     game.food := Some {| x := 10; y := 9 |};
     game.status := "playing";
     game.score := 4;
     game.tickInterval := Some 0%nat;
     game.intervals := [0%nat];
     game.nextInterval := 1%nat;
     game.randoms := [(3 # 21)%Q; (4 # 21)%Q] |}.

(** A page that has just loaded the script: the settings are the defaults,
    no interval is live, no food is placed, and the snake and the status hold
    placeholders for what the first [reset] overwrites.  Six values of
    [Math.random()] are to come. *)
Definition freshPage : game.t :=
  {| game.config := settings;
     game.snake := snake.init [] "" 0 0;
     game.food := None;
     game.status := "";
     game.score := 0;
     game.tickInterval := None;
     game.intervals := [];
     game.nextInterval := 0%nat;
     game.randoms := [(1 # 2)%Q; (10 # 21)%Q; (1 # 2)%Q; (9 # 21)%Q;
                      (3 # 21)%Q; (4 # 21)%Q] |}.

(** The argument [{speed: 5}] that the page passes to [game.init]. *)
Definition speedFive : UserSettings :=
  {| userRowsCount := None; userColsCount := None;
     userSpeed := Some 5; userWinFoodCount := None |}.

(** The game after [game.init({speed: 5})] on the fresh page: the first draw,
    the snake's own cell, was rejected and the food is on the cell above. *)
Definition started : game.t :=
  {| game.config :=
       {| rowsCount := 21; colsCount := 21; speed := 5; winFoodCount := 50 |};
     game.snake := snake.init [ {| x := 10; y := 10 |} ] "up" 20 20;
     game.food := Some {| x := 10; y := 9 |};
     game.status := "stopped";
     game.score := 0;
     game.tickInterval := None;
     game.intervals := [];
     game.nextInterval := 0%nat;
     game.randoms := [(3 # 21)%Q; (4 # 21)%Q] |}.

(** [started] after a click on the play button and one tick, which ate. *)
Definition afterFirstFood : game.t :=
  {| game.config :=
       {| rowsCount := 21; colsCount := 21; speed := 5; winFoodCount := 50 |};
     game.snake := snake.init [ {| x := 10; y := 9 |}; {| x := 10; y := 10 |} ] "up" 20 20;
     game.food := Some {| x := 3; y := 4 |};
     game.status := "playing";
     game.score := 1;
     game.tickInterval := Some 0%nat;
     game.intervals := [0%nat];
     game.nextInterval := 1%nat;
     game.randoms := [] |}.

(** [started] after a play click and the keys D, arrow down, A, with no tick
    in between: the second asks for the reversal of the last step, up, and is
    refused; the third is accepted although it reverses the first. *)
Definition afterThreeKeys : game.t :=
  game.keyDownHandler
    (game.keyDownHandler
       (game.keyDownHandler (game.play started) "KeyD") "ArrowDown") "KeyA".

(** [afterFirstFood] with two more values of [Math.random()] to come, and the
    game a click on the new-game button then leads to. *)
Definition beforeNewGame : game.t :=
  game.setRandoms afterFirstFood [(1 # 3)%Q; (2 # 7)%Q].

Definition restarted : game.t :=
  {| game.config :=
       {| rowsCount := 21; colsCount := 21; speed := 5; winFoodCount := 50 |};
     game.snake := snake.init [ {| x := 10; y := 10 |} ] "up" 20 20;
     game.food := Some {| x := 7; y := 6 |};
     game.status := "stopped";
     game.score := 0;
     game.tickInterval := Some 0%nat;
     game.intervals := [];
     game.nextInterval := 1%nat;
     game.randoms := [] |}.

(** The board of three columns and rows, with a snake of two segments and the
    food displayed on it. *)
Definition smallDisplay : map.t := map.init 3 3.

(** * Properties *)

(** ** The result monad *)

Lemma bind_Ok_inv {A B : Type} (r : result A) (k : A -> result B) (b : B) :
  bind r k = Ok b -> exists a, r = Ok a /\ k a = Ok b.
Proof.
  destruct r as [a | e]; simpl; intro H.
  - exists a. split; [reflexivity | exact H].
  - discriminate H.
Qed.

(** Splits a hypothesis [bind r k = Ok b] into the two returns it stands for. *)
Ltac inv_bind H :=
  let a := fresh "a" in
  let Hr := fresh "Hr" in
  apply bind_Ok_inv in H; destruct H as [a [Hr H]].

(** ** Points and membership *)

Lemma point_eta (p : Point) : {| x := x p; y := y p |} = p.
Proof. destruct p. reflexivity. Qed.

Lemma samePoint_eq (a b : Point) : samePoint a b = true <-> a = b.
Proof.
  unfold samePoint. destruct a as [ax ay], b as [bx by']. simpl.
  rewrite andb_true_iff, !Z.eqb_eq. split.
  - intros [-> ->]. reflexivity.
  - intro H. injection H as -> ->. split; reflexivity.
Qed.

Lemma samePoint_refl (a : Point) : samePoint a a = true.
Proof. apply samePoint_eq. reflexivity. Qed.

Lemma samePoint_sym (a b : Point) : samePoint a b = samePoint b a.
Proof. unfold samePoint. rewrite (Z.eqb_sym (x a)), (Z.eqb_sym (y a)). reflexivity. Qed.

(** The test of the sampling loop, [exclude.some(...)], is membership. *)
Lemma excluded_In (p : Point) (l : list Point) :
  existsb (fun exPoint => samePoint p exPoint) l = true <-> In p l.
Proof.
  rewrite existsb_exists. split.
  - intros [q [Hq Hsame]]. apply samePoint_eq in Hsame. subst q. exact Hq.
  - intro Hp. exists p. split; [exact Hp | apply samePoint_refl].
Qed.

Lemma not_excluded_In (p : Point) (l : list Point) :
  existsb (fun exPoint => samePoint p exPoint) l = false <-> ~ In p l.
Proof.
  rewrite <- excluded_In. destruct (existsb _ l); split; congruence.
Qed.

(** The test of [snake.isOnPoint], [this.body.some(...)], is membership too. *)
Lemma onSnake_In (p : Point) (l : list Point) :
  existsb (fun snakePoint => samePoint snakePoint p) l = true <-> In p l.
Proof.
  rewrite <- excluded_In. 
  replace (existsb (fun snakePoint => samePoint snakePoint p) l)
    with (existsb (fun exPoint => samePoint p exPoint) l); [reflexivity |].
  induction l as [| q l IH]; simpl; [reflexivity |].
  rewrite IH, (samePoint_sym p q). reflexivity.
Qed.

Lemma isOnPoint_true (sn : snake.t) (p : Point) :
  snake.isOnPoint sn (Some p) = Ok true <-> In p (snake.body sn).
Proof.
  unfold snake.isOnPoint. rewrite <- onSnake_In. split.
  - intro H. injection H as H. exact H.
  - intro H. rewrite H. reflexivity.
Qed.

Lemma isOnPoint_false (sn : snake.t) (p : Point) :
  snake.isOnPoint sn (Some p) = Ok false <-> ~ In p (snake.body sn).
Proof.
  rewrite <- isOnPoint_true. unfold snake.isOnPoint.
  destruct (existsb _ (snake.body sn)); split; congruence.
Qed.

(** ** The sampling loop *)

(** The loop consumes its draws two at a time: a property of all supplies is
    proved for a supply and for the supply with one more draw in front. *)
Lemma draws_pair_ind (P : list Q -> Prop) :
  P [] ->
  (forall r, P [r]) ->
  (forall rx ry draws, P draws -> P (rx :: ry :: draws)) ->
  forall draws, P draws.
Proof.
  intros Hnil Hone Hpair draws.
  assert (H : P draws /\ forall r, P (r :: draws)).
  { induction draws as [| r draws [IH1 IH2]].
    - split; [exact Hnil | exact Hone].
    - split; [apply IH2 | intro r'; apply Hpair; exact IH1]. }
  exact (proj1 H).
Qed.

(** [k / n] is a value of [Math.random()] that [Math.floor(... * n)] turns
    into [k]. *)
Lemma floorRandom_pick (n k : Z) :
  0 <= k < n ->
  unitInterval (k # Z.to_pos n) /\ game.floorRandom (k # Z.to_pos n) n = k.
Proof.
  intros Hk. assert (Hn : Z.pos (Z.to_pos n) = n) by (apply Z2Pos.id; lia).
  split; [split |].
  - unfold Qle. simpl. lia.
  - unfold Qlt. simpl. lia.
  - unfold game.floorRandom, Qmult, inject_Z, Qfloor. simpl.
    rewrite Pos.mul_1_r, Hn. apply Z.div_mul. lia.
Qed.

(** Values of [Math.random()] are turned into cells of the board. *)
Lemma floorRandom_range (r : Q) (n : Z) :
  unitInterval r -> 0 < n -> 0 <= game.floorRandom r n < n.
Proof.
  intros [H0 H1] Hn. unfold game.floorRandom.
  assert (Hlo : (0 <= r * inject_Z n)%Q).
  { apply Qmult_le_0_compat; [exact H0 |].
    unfold Qle, inject_Z. simpl. lia. }
  assert (Hhi : (r * inject_Z n < inject_Z n)%Q).
  { rewrite <- (Qmult_1_l (inject_Z n)) at 2.
    apply Qmult_lt_compat_r; [| exact H1].
    unfold Qlt, inject_Z. simpl. lia. }
  split.
  - change 0 with (Qfloor (inject_Z 0)) at 1. apply Qfloor_resp_le. exact Hlo.
  - apply Z.le_succ_l, Z.lt_succ_r.
    destruct (Z.le_gt_cases n (Qfloor (r * inject_Z n))) as [Hge | Hlt]; [| lia].
    exfalso. apply (Qlt_irrefl (inject_Z n)).
    apply Qle_lt_trans with (r * inject_Z n)%Q; [| exact Hhi].
    apply Qle_trans with (inject_Z (Qfloor (r * inject_Z n))).
    + rewrite <- Zle_Qle. exact Hge.
    + apply Qfloor_le.
Qed.

Section Sampling.

(** One run of the loop: what it excludes and the size of the board. *)
Variable exclude : list Point.
Variables cols rows : Z.

(** Whatever the loop returns is outside the exclude list. *)
Lemma sample_free (draws : list Q) :
  forall p rest,
    game.sample exclude cols rows draws = Ok (p, rest) -> ~ In p exclude.
Proof.
  induction draws as [| r | rx ry draws IH] using draws_pair_ind;
    intros p rest H; simpl in H; try discriminate H.
  destruct (existsb _ exclude) eqn:Hex; simpl in H.
  - eapply IH. exact H.
  - injection H as <- _. apply not_excluded_In. exact Hex.
Qed.

(** The loop fails in one way only: the draws end. *)
Lemma sample_fails (draws : list Q) :
  forall e, game.sample exclude cols rows draws = Fail e -> e = OutOfDraws.
Proof.
  induction draws as [| r | rx ry draws IH] using draws_pair_ind;
    intros e H; simpl in H; try (injection H as <-; reflexivity).
  destruct (existsb _ exclude); simpl in H; [apply IH, H | discriminate H].
Qed.

(** With such draws the loop is left, and only with such draws. *)
Lemma sample_returns (draws : list Q) :
  findsFree exclude cols rows draws ->
  exists p rest, game.sample exclude cols rows draws = Ok (p, rest).
Proof.
  induction 1 as [rx ry draws Hfree | rx ry draws Hlater IH]; simpl.
  - apply not_excluded_In in Hfree. unfold drawn in Hfree. rewrite Hfree. simpl.
    eexists _, _. reflexivity.
  - destruct (existsb _ exclude); simpl.
    + exact IH.
    + eexists _, _. reflexivity.
Qed.

Lemma sample_returned (draws : list Q) :
  forall p rest,
    game.sample exclude cols rows draws = Ok (p, rest) ->
    findsFree exclude cols rows draws.
Proof.
  induction draws as [| r | rx ry draws IH] using draws_pair_ind;
    intros p rest H; simpl in H; try discriminate H.
  destruct (existsb _ exclude) eqn:Hex; simpl in H.
  - apply findsFree_later. eapply IH. exact H.
  - apply findsFree_now. apply not_excluded_In. exact Hex.
Qed.

(** Values of [Math.random()] are turned into cells of the board. *)
Lemma sample_onBoard (draws : list Q) :
  0 < cols -> 0 < rows ->
  Forall unitInterval draws ->
  forall p rest,
    game.sample exclude cols rows draws = Ok (p, rest) -> onBoard cols rows p.
Proof.
  intros Hc Hr.
  induction draws as [| r | rx ry draws IH] using draws_pair_ind;
    intros Hall p rest H; simpl in H; try discriminate H.
  inversion Hall as [| ? ? Hrx Hall']. inversion Hall' as [| ? ? Hry Hall''].
  destruct (existsb _ exclude); simpl in H.
  - apply (IH Hall'' p rest H).
  - injection H as <- _. split; simpl; apply floorRandom_range; assumption.
Qed.

End Sampling.

(** Only the points of the exclude list matter, not their order or number. *)
Lemma findsFree_same_points (ex ex' : list Point) (cols rows : Z) (draws : list Q) :
  (forall p, In p ex' -> In p ex) ->
  findsFree ex cols rows draws -> findsFree ex' cols rows draws.
Proof.
  intros Hincl H. induction H as [rx ry draws Hfree | rx ry draws Hlater IH].
  - apply findsFree_now. intro Hin. apply Hfree, Hincl, Hin.
  - apply findsFree_later. exact IH.
Qed.

(** *** A free cell exists on a board larger than the exclude list *)

Lemma cellAt_onBoard (cols rows : Z) (i : nat) :
  0 < cols -> Z.of_nat i < cols * rows -> onBoard cols rows (cellAt cols i).
Proof.
  intros Hc Hi. unfold onBoard, cellAt. simpl.
  split; [apply Z.mod_pos_bound; exact Hc |].
  split; [apply Z.div_pos; lia |].
  apply Z.div_lt_upper_bound; lia.
Qed.

Lemma cellAt_injective (cols : Z) (i j : nat) :
  0 < cols -> cellAt cols i = cellAt cols j -> i = j.
Proof.
  intros Hc H. unfold cellAt in H. injection H as Hmod Hdiv.
  apply Nat2Z.inj.
  rewrite (Z.div_mod (Z.of_nat i) cols), (Z.div_mod (Z.of_nat j) cols) by lia.
  rewrite Hmod, Hdiv. reflexivity.
Qed.

Lemma cells_NoDup (cols rows : Z) : 0 < cols -> NoDup (cells cols rows).
Proof.
  intro Hc. unfold cells. apply Injective_map_NoDup_in; [| apply seq_NoDup].
  intros i j _ _. apply cellAt_injective. exact Hc.
Qed.

Lemma cells_length (cols rows : Z) :
  List.length (cells cols rows) = Z.to_nat (cols * rows).
Proof. unfold cells. rewrite length_map, length_seq. reflexivity. Qed.

Lemma cells_onBoard (cols rows : Z) (c : Point) :
  0 < cols -> 0 < rows -> In c (cells cols rows) -> onBoard cols rows c.
Proof.
  intros Hc Hr Hin. unfold cells in Hin. apply in_map_iff in Hin.
  destruct Hin as [i [<- Hi]]. apply in_seq in Hi.
  apply cellAt_onBoard; [exact Hc | lia].
Qed.

(** The pigeonhole: an exclude list shorter than the number of cells misses
    a cell of the board. *)
Lemma free_cell_exists (exclude : list Point) (cols rows : Z) :
  0 < cols -> 0 < rows ->
  Z.of_nat (List.length exclude) < cols * rows ->
  exists cell, onBoard cols rows cell /\ ~ In cell exclude.
Proof.
  intros Hc Hr Hshort.
  destruct (find (fun c => negb (existsb (fun exPoint => samePoint c exPoint) exclude))
              (cells cols rows)) as [cell |] eqn:Hfind.
  - apply find_some in Hfind. destruct Hfind as [Hin Hfree].
    exists cell. split; [apply cells_onBoard; assumption |].
    apply not_excluded_In. apply negb_true_iff. exact Hfree.
  - exfalso.
    assert (Hincl : incl (cells cols rows) exclude).
    { intros c Hin. apply excluded_In.
      apply (find_none _ _ Hfind) in Hin. apply negb_false_iff. exact Hin. }
    apply NoDup_incl_length in Hincl; [| apply cells_NoDup; exact Hc].
    rewrite cells_length in Hincl. lia.
Qed.

(** So on such a board some supply of two values of [Math.random()] lets the
    loop return at once. *)
Lemma findsFree_possible (exclude : list Point) (cols rows : Z) :
  0 < cols -> 0 < rows ->
  Z.of_nat (List.length exclude) < cols * rows ->
  exists rx ry,
    unitInterval rx /\ unitInterval ry /\ findsFree exclude cols rows [rx; ry].
Proof.
  intros Hc Hr Hshort.
  destruct (free_cell_exists exclude cols rows Hc Hr Hshort) as [cell [[Hx Hy] Hfree]].
  destruct (floorRandom_pick cols (x cell) Hx) as [Hrx Hfx].
  destruct (floorRandom_pick rows (y cell) Hy) as [Hry Hfy].
  exists (x cell # Z.to_pos cols)%Q, (y cell # Z.to_pos rows)%Q.
  split; [exact Hrx |]. split; [exact Hry |].
  apply findsFree_now. unfold drawn. rewrite Hfx, Hfy, point_eta. exact Hfree.
Qed.

(** ** config.validate *)

Lemma violated_inRange (lo hi v : Z) :
  (v <? lo) || (v >? hi) = negb (inRange lo hi v).
Proof.
  unfold inRange.
  rewrite negb_andb, Z.gtb_ltb, !Z.leb_antisym, !negb_involutive. reflexivity.
Qed.

Lemma validate_errors (s : Settings) :
  errors (config.validate s) =
    report 10 30 (rowsCount s) config.rowsCountError ++
    report 10 30 (colsCount s) config.colsCountError ++
    report 1 10 (speed s) config.speedError ++
    report 5 50 (winFoodCount s) config.winFoodCountError.
Proof.
  unfold config.validate, config.check, report.
  rewrite !violated_inRange.
  destruct (inRange 10 30 (rowsCount s)), (inRange 10 30 (colsCount s)),
    (inRange 1 10 (speed s)), (inRange 5 50 (winFoodCount s)); reflexivity.
Qed.

Lemma validate_isValid (s : Settings) :
  isValid (config.validate s) =
    inRange 10 30 (rowsCount s) && inRange 10 30 (colsCount s) &&
    inRange 1 10 (speed s) && inRange 5 50 (winFoodCount s).
Proof.
  unfold config.validate, config.check.
  rewrite !violated_inRange.
  destruct (inRange 10 30 (rowsCount s)), (inRange 10 30 (colsCount s)),
    (inRange 1 10 (speed s)), (inRange 5 50 (winFoodCount s)); reflexivity.
Qed.

(** C8.  [validate] checks the four ranges independently and accumulates:
    the errors are, in the order rowsCount, colsCount, speed, winFoodCount, one
    message for each setting outside its range and none for a setting inside;
    the four messages are distinct; [isValid] holds exactly when all four
    settings are in range, and then the errors are empty; their number is the
    number of violations; rowsCount = 5 with speed = 20 (the rest at their
    defaults) gives exactly the two corresponding errors and [isValid = false]. *)
Theorem validate_accumulates_violations :
  forall s : Settings,
    errors (config.validate s) =
      report 10 30 (rowsCount s) config.rowsCountError ++
      report 10 30 (colsCount s) config.colsCountError ++
      report 1 10 (speed s) config.speedError ++
      report 5 50 (winFoodCount s) config.winFoodCountError
    /\ NoDup [config.rowsCountError; config.colsCountError;
              config.speedError; config.winFoodCountError]
    /\ isValid (config.validate s) =
         inRange 10 30 (rowsCount s) && inRange 10 30 (colsCount s) &&
         inRange 1 10 (speed s) && inRange 5 50 (winFoodCount s)
    /\ (isValid (config.validate s) = true <-> errors (config.validate s) = [])
    /\ List.length (errors (config.validate s)) =
         (Nat.b2n (negb (inRange 10 30 (rowsCount s))) +
          Nat.b2n (negb (inRange 10 30 (colsCount s))) +
          Nat.b2n (negb (inRange 1 10 (speed s))) +
          Nat.b2n (negb (inRange 5 50 (winFoodCount s))))%nat
    /\ config.validate
         {| rowsCount := 5; colsCount := 21; speed := 20; winFoodCount := 50 |} =
       {| isValid := false;
          errors := [config.rowsCountError; config.speedError] |}.
Proof.
  intro s. rewrite validate_errors, validate_isValid. unfold report.
  split; [reflexivity |]. split.
  - repeat constructor; simpl; intuition discriminate.
  - split; [reflexivity |].
    destruct (inRange 10 30 (rowsCount s)), (inRange 10 30 (colsCount s)),
      (inRange 1 10 (speed s)), (inRange 5 50 (winFoodCount s)); simpl;
      (split; [split; intro; (reflexivity || discriminate) |]);
      (split; reflexivity).
Qed.

(** ** game.canSetDirection *)

(** C7.  For every game, whatever its [lastStepDirection], and every
    direction [d] of up, right, down, left: [canSetDirection d] is false
    exactly when [d] is the direct reversal of [lastStepDirection], and true
    otherwise; after a last step up, down is refused and up, left and right
    are accepted. *)
Theorem canSetDirection_rejects_only_reversal :
  forall (g : game.t) (d : string),
    In d ["up"; "right"; "down"; "left"] ->
    (game.canSetDirection g d = false <->
       reversal d (snake.lastStepDirection (game.snake g)))
    /\ (game.canSetDirection g d = true <->
          ~ reversal d (snake.lastStepDirection (game.snake g)))
    /\ (snake.lastStepDirection (game.snake g) = "up" ->
          game.canSetDirection g "down" = false
          /\ game.canSetDirection g "up" = true
          /\ game.canSetDirection g "left" = true
          /\ game.canSetDirection g "right" = true).
Proof.
  intros g d Hd.
  assert (Hfalse : game.canSetDirection g d = false <->
                   reversal d (snake.lastStepDirection (game.snake g))).
  { unfold game.canSetDirection, snake.getLastStepDirection, reversal.
    simpl in Hd.
    destruct Hd as [<- | [<- | [<- | [<- | []]]]]; simpl;
      rewrite ?orb_false_r;
      match goal with
      | |- context [String.eqb ?l ?s] => destruct (String.eqb_spec l s) as [-> | Hne]
      end; simpl; split; try discriminate; try tauto;
      intros [[H1 H2] | [[H1 H2] | [[H1 H2] | [H1 H2]]]]; congruence. }
  split; [exact Hfalse |]. split.
  - rewrite <- Hfalse. destruct (game.canSetDirection g d); split; congruence.
  - intro Hup. unfold game.canSetDirection, snake.getLastStepDirection.
    rewrite Hup. repeat split; reflexivity.
Qed.

Lemma canSetDirection_rejects_only_reversal_witness :
  In "down" ["up"; "right"; "down"; "left"] /\
  (game.canSetDirection aboutToEat "down" = false <->
   reversal "down" (snake.lastStepDirection (game.snake aboutToEat))).
Proof.
  assert (Hd : In "down" ["up"; "right"; "down"; "left"]) by (simpl; tauto).
  split; [exact Hd |].
  exact (proj1 (canSetDirection_rejects_only_reversal aboutToEat "down" Hd)).
Defined.

(** ** snake.getNextStepHeadPoint *)

Lemma nextStep_up (sn : snake.t) (firstPoint : Point) (rest : list Point) :
  snake.body sn = firstPoint :: rest ->
  snake.direction sn = "up" ->
  snake.getNextStepHeadPoint sn =
    Ok (Some {| x := x firstPoint;
                y := if y firstPoint =? 0 then snake.maxY sn else y firstPoint - 1 |}).
Proof.
  intros Hb Hd. unfold snake.getNextStepHeadPoint. rewrite Hb, Hd. simpl.
  destruct (y firstPoint =? 0); reflexivity.
Qed.

Lemma nextStep_right (sn : snake.t) (firstPoint : Point) (rest : list Point) :
  snake.body sn = firstPoint :: rest ->
  snake.direction sn = "right" ->
  snake.getNextStepHeadPoint sn =
    Ok (Some {| x := if x firstPoint =? snake.maxX sn then 0 else x firstPoint + 1;
                y := y firstPoint |}).
Proof.
  intros Hb Hd. unfold snake.getNextStepHeadPoint. rewrite Hb, Hd. simpl.
  destruct (x firstPoint =? snake.maxX sn); reflexivity.
Qed.

Lemma nextStep_down (sn : snake.t) (firstPoint : Point) (rest : list Point) :
  snake.body sn = firstPoint :: rest ->
  snake.direction sn = "down" ->
  snake.getNextStepHeadPoint sn =
    Ok (Some {| x := x firstPoint;
                y := if y firstPoint =? snake.maxY sn then 0 else y firstPoint + 1 |}).
Proof.
  intros Hb Hd. unfold snake.getNextStepHeadPoint. rewrite Hb, Hd. simpl.
  destruct (y firstPoint =? snake.maxY sn); reflexivity.
Qed.

Lemma nextStep_left (sn : snake.t) (firstPoint : Point) (rest : list Point) :
  snake.body sn = firstPoint :: rest ->
  snake.direction sn = "left" ->
  snake.getNextStepHeadPoint sn =
    Ok (Some {| x := if x firstPoint =? 0 then snake.maxX sn else x firstPoint - 1;
                y := y firstPoint |}).
Proof.
  intros Hb Hd. unfold snake.getNextStepHeadPoint. rewrite Hb, Hd. simpl.
  destruct (x firstPoint =? 0); reflexivity.
Qed.

(** The next head point is defined exactly for a snake with a head and one of
    the four directions, and then it is the head moved by the direction. *)
Lemma nextStep_defined (sn : snake.t) (p : Point) :
  snake.getNextStepHeadPoint sn = Ok (Some p) ->
  exists firstPoint rest,
    snake.body sn = firstPoint :: rest /\
    In (snake.direction sn) ["up"; "right"; "down"; "left"].
Proof.
  unfold snake.getNextStepHeadPoint. intro H.
  destruct (snake.body sn) as [| firstPoint rest].
  - repeat match type of H with
           | context [String.eqb ?a ?b] => destruct (String.eqb a b)
           end; discriminate H.
  - exists firstPoint, rest. split; [reflexivity |]. simpl.
    destruct (String.eqb_spec (snake.direction sn) "up") as [-> | _]; [tauto |].
    destruct (String.eqb_spec (snake.direction sn) "right") as [-> | _]; [tauto |].
    destruct (String.eqb_spec (snake.direction sn) "down") as [-> | _]; [tauto |].
    destruct (String.eqb_spec (snake.direction sn) "left") as [-> | _]; [tauto |].
    discriminate H.
Qed.

(** C5.  For a snake with head [(x, y)] the next head point wraps on both
    axes: right from [x = maxX] gives [x = 0], left from [x = 0] gives
    [x = maxX], up from [y = 0] gives [y = maxY], down from [y = maxY] gives
    [y = 0]; away from that edge the moved coordinate changes by exactly 1;
    the other coordinate never changes; and a head inside the bounds stays
    inside them. *)
Theorem getNextStepHeadPoint_wraps :
  forall (sn : snake.t) (firstPoint : Point) (rest : list Point),
    snake.body sn = firstPoint :: rest ->
    (snake.direction sn = "right" ->
       (x firstPoint = snake.maxX sn ->
          snake.getNextStepHeadPoint sn = Ok (Some {| x := 0; y := y firstPoint |}))
       /\ (x firstPoint <> snake.maxX sn ->
             snake.getNextStepHeadPoint sn =
               Ok (Some {| x := x firstPoint + 1; y := y firstPoint |})))
    /\ (snake.direction sn = "left" ->
          (x firstPoint = 0 ->
             snake.getNextStepHeadPoint sn =
               Ok (Some {| x := snake.maxX sn; y := y firstPoint |}))
          /\ (x firstPoint <> 0 ->
                snake.getNextStepHeadPoint sn =
                  Ok (Some {| x := x firstPoint - 1; y := y firstPoint |})))
    /\ (snake.direction sn = "up" ->
          (y firstPoint = 0 ->
             snake.getNextStepHeadPoint sn =
               Ok (Some {| x := x firstPoint; y := snake.maxY sn |}))
          /\ (y firstPoint <> 0 ->
                snake.getNextStepHeadPoint sn =
                  Ok (Some {| x := x firstPoint; y := y firstPoint - 1 |})))
    /\ (snake.direction sn = "down" ->
          (y firstPoint = snake.maxY sn ->
             snake.getNextStepHeadPoint sn = Ok (Some {| x := x firstPoint; y := 0 |}))
          /\ (y firstPoint <> snake.maxY sn ->
                snake.getNextStepHeadPoint sn =
                  Ok (Some {| x := x firstPoint; y := y firstPoint + 1 |})))
    /\ (In (snake.direction sn) ["up"; "right"; "down"; "left"] ->
        0 <= x firstPoint <= snake.maxX sn ->
        0 <= y firstPoint <= snake.maxY sn ->
        exists p,
          snake.getNextStepHeadPoint sn = Ok (Some p)
          /\ 0 <= x p <= snake.maxX sn /\ 0 <= y p <= snake.maxY sn).
Proof.
  intros sn firstPoint rest Hb.
  split; [| split; [| split; [| split]]].
  - intro Hd. rewrite (nextStep_right sn firstPoint rest Hb Hd).
    destruct (Z.eqb_spec (x firstPoint) (snake.maxX sn)); split; intro;
      (reflexivity || contradiction).
  - intro Hd. rewrite (nextStep_left sn firstPoint rest Hb Hd).
    destruct (Z.eqb_spec (x firstPoint) 0); split; intro;
      (reflexivity || contradiction).
  - intro Hd. rewrite (nextStep_up sn firstPoint rest Hb Hd).
    destruct (Z.eqb_spec (y firstPoint) 0); split; intro;
      (reflexivity || contradiction).
  - intro Hd. rewrite (nextStep_down sn firstPoint rest Hb Hd).
    destruct (Z.eqb_spec (y firstPoint) (snake.maxY sn)); split; intro;
      (reflexivity || contradiction).
  - intros Hd Hx Hy. simpl in Hd.
    destruct Hd as [Hd | [Hd | [Hd | [Hd | []]]]]; symmetry in Hd.
    + rewrite (nextStep_up sn firstPoint rest Hb Hd). eexists. split; [reflexivity |].
      simpl. destruct (Z.eqb_spec (y firstPoint) 0); lia.
    + rewrite (nextStep_right sn firstPoint rest Hb Hd). eexists. split; [reflexivity |].
      simpl. destruct (Z.eqb_spec (x firstPoint) (snake.maxX sn)); lia.
    + rewrite (nextStep_down sn firstPoint rest Hb Hd). eexists. split; [reflexivity |].
      simpl. destruct (Z.eqb_spec (y firstPoint) (snake.maxY sn)); lia.
    + rewrite (nextStep_left sn firstPoint rest Hb Hd). eexists. split; [reflexivity |].
      simpl. destruct (Z.eqb_spec (x firstPoint) 0); lia.
Qed.

Lemma getNextStepHeadPoint_wraps_witness :
  snake.body atRightEdge = {| x := 20; y := 7 |} :: [ {| x := 19; y := 7 |} ]
  /\ snake.getNextStepHeadPoint atRightEdge = Ok (Some {| x := 0; y := 7 |}).
Proof.
  split; [reflexivity |].
  exact (proj1 (proj1 (getNextStepHeadPoint_wraps atRightEdge
                         {| x := 20; y := 7 |} [ {| x := 19; y := 7 |} ] eq_refl)
                  eq_refl) eq_refl).
Defined.

(** ** game.getRandomFreeCoordinates *)

Lemma exclude_In (g : game.t) (p : Point) :
  In p (game.exclude g) <->
  game.food g = Some p \/ In p (snake.body (game.snake g)).
Proof.
  unfold game.exclude, food.getCoordinates, snake.getBody.
  destruct (game.food g) as [foodPoint |]; simpl.
  - split; (intros [H | H]; [left; congruence | right; exact H]).
  - split; [intro H; right; exact H | intros [H | H]; [discriminate H | exact H]].
Qed.

Lemma getRandomFreeCoordinates_Ok (g : game.t) (p : Point) (g' : game.t) :
  game.getRandomFreeCoordinates g = Ok (p, g') <->
  exists rest,
    game.sample (game.exclude g) (colsCount (game.config g))
      (rowsCount (game.config g)) (game.randoms g) = Ok (p, rest)
    /\ g' = game.setRandoms g rest.
Proof.
  unfold game.getRandomFreeCoordinates, config.getColsCount, config.getRowsCount.
  destruct (game.sample _ _ _ _) as [[q rest] | e]; simpl; split.
  - intro H. injection H as -> <-. exists rest. split; reflexivity.
  - intros [rest' [H ->]]. injection H as -> ->. reflexivity.
  - discriminate.
  - intros [rest' [H _]]. discriminate H.
Qed.

(** C9.  Whenever the search for a free coordinate returns, for any body, any
    food and any supply of random values, the returned point is no point of
    the snake body: [snake.isOnPoint] is false of it and it differs from every
    segment. *)
Theorem getRandomFreeCoordinates_avoids_snake :
  forall (g : game.t) (p : Point) (g' : game.t),
    game.getRandomFreeCoordinates g = Ok (p, g') ->
    snake.isOnPoint (game.snake g) (Some p) = Ok false
    /\ forall segment, In segment (snake.getBody (game.snake g)) -> p <> segment.
Proof.
  intros g p g' H.
  apply getRandomFreeCoordinates_Ok in H. destruct H as [rest [H _]].
  apply sample_free in H.
  assert (Hbody : ~ In p (snake.body (game.snake g))).
  { intro Hin. apply H, exclude_In. right. exact Hin. }
  split.
  - apply isOnPoint_false. exact Hbody.
  - intros segment Hseg ->. exact (Hbody Hseg).
Qed.

Lemma getRandomFreeCoordinates_avoids_snake_witness :
  game.getRandomFreeCoordinates aboutToEat =
    Ok ({| x := 3; y := 4 |}, game.setRandoms aboutToEat [])
  /\ snake.isOnPoint (game.snake aboutToEat) (Some {| x := 3; y := 4 |}) = Ok false.
Proof.
  assert (H : game.getRandomFreeCoordinates aboutToEat =
              Ok ({| x := 3; y := 4 |}, game.setRandoms aboutToEat []))
    by (vm_compute; reflexivity).
  split; [exact H |].
  exact (proj1 (getRandomFreeCoordinates_avoids_snake aboutToEat _ _ H)).
Defined.

(** ** game.finish, game.stop, game.play *)

Lemma clearInterval_frame (g : game.t) (id : option nat) :
  game.config (game.clearInterval g id) = game.config g
  /\ game.snake (game.clearInterval g id) = game.snake g
  /\ game.food (game.clearInterval g id) = game.food g
  /\ game.status (game.clearInterval g id) = game.status g
  /\ game.score (game.clearInterval g id) = game.score g
  /\ game.tickInterval (game.clearInterval g id) = game.tickInterval g
  /\ game.nextInterval (game.clearInterval g id) = game.nextInterval g
  /\ game.randoms (game.clearInterval g id) = game.randoms g.
Proof. destruct id; simpl; repeat split; reflexivity. Qed.

Lemma finish_frame (g : game.t) :
  game.config (game.finish g) = game.config g
  /\ game.snake (game.finish g) = game.snake g
  /\ game.food (game.finish g) = game.food g
  /\ game.score (game.finish g) = game.score g
  /\ game.randoms (game.finish g) = game.randoms g
  /\ game.status (game.finish g) = "finished".
Proof.
  unfold game.finish. simpl. destruct (game.tickInterval g); simpl;
    repeat split; reflexivity.
Qed.

Lemma stop_frame (g : game.t) :
  game.config (game.stop g) = game.config g
  /\ game.snake (game.stop g) = game.snake g
  /\ game.food (game.stop g) = game.food g
  /\ game.score (game.stop g) = game.score g
  /\ game.randoms (game.stop g) = game.randoms g
  /\ game.status (game.stop g) = "stopped".
Proof.
  unfold game.stop. simpl. destruct (game.tickInterval g); simpl;
    repeat split; reflexivity.
Qed.

(** ** game.tickHandler: self-collision *)

Lemma tick_collides (g : game.t) (head : Point) :
  snake.getNextStepHeadPoint (game.snake g) = Ok (Some head) ->
  In head (snake.body (game.snake g)) ->
  game.tickHandler g = Ok (game.finish g).
Proof.
  intros Hhead Hin. unfold game.tickHandler, game.canMakeStep.
  rewrite Hhead. cbn [bind].
  rewrite (proj2 (isOnPoint_true _ _) Hin). reflexivity.
Qed.

(** C3.  In a tick whose prospective head point is a segment of the current
    body, [tickHandler] is [finish()] and nothing more: the snake (body and
    directions), the food, the score, the settings and the random supply are
    untouched, the status is finished, and the game's interval is no longer
    live. *)
Theorem tick_self_collision_only_finishes :
  forall (g : game.t) (head : Point),
    snake.getNextStepHeadPoint (game.snake g) = Ok (Some head) ->
    In head (snake.body (game.snake g)) ->
    game.tickHandler g = Ok (game.finish g)
    /\ game.snake (game.finish g) = game.snake g
    /\ game.food (game.finish g) = game.food g
    /\ game.score (game.finish g) = game.score g
    /\ game.config (game.finish g) = game.config g
    /\ game.randoms (game.finish g) = game.randoms g
    /\ game.status (game.finish g) = "finished"
    /\ forall id, game.tickInterval g = Some id ->
                  ~ In id (game.intervals (game.finish g)).
Proof.
  intros g head Hhead Hin.
  destruct (finish_frame g) as [Hc [Hs [Hf [Hsc [Hr Hst]]]]].
  repeat split; try assumption.
  - apply (tick_collides g head Hhead Hin).
  - intros id Hid. unfold game.finish. simpl. rewrite Hid. simpl.
    rewrite filter_In, Nat.eqb_refl. intros [_ H]. discriminate H.
Qed.

Lemma tick_self_collision_only_finishes_witness :
  snake.getNextStepHeadPoint (game.snake coiled) = Ok (Some {| x := 6; y := 5 |})
  /\ In {| x := 6; y := 5 |} (snake.body (game.snake coiled))
  /\ game.tickHandler coiled = Ok (game.finish coiled).
Proof.
  assert (Hhead : snake.getNextStepHeadPoint (game.snake coiled) =
                  Ok (Some {| x := 6; y := 5 |})) by reflexivity.
  assert (Hin : In {| x := 6; y := 5 |} (snake.body (game.snake coiled)))
    by (simpl; tauto).
  split; [exact Hhead |]. split; [exact Hin |].
  exact (proj1 (tick_self_collision_only_finishes coiled _ Hhead Hin)).
Defined.

(** ** game.tickHandler: the three kinds of tick *)

(** The next head point reads the head, the direction and the bounds only. *)
Lemma nextStep_reads (sn sn' : snake.t) (firstPoint : Point) (rest rest' : list Point) :
  snake.body sn = firstPoint :: rest ->
  snake.body sn' = firstPoint :: rest' ->
  snake.direction sn' = snake.direction sn ->
  snake.maxX sn' = snake.maxX sn ->
  snake.maxY sn' = snake.maxY sn ->
  snake.getNextStepHeadPoint sn' = snake.getNextStepHeadPoint sn.
Proof.
  intros Hb Hb' Hd Hx Hy. unfold snake.getNextStepHeadPoint.
  rewrite Hb, Hb', Hd, Hx, Hy. reflexivity.
Qed.

Lemma makeStep_stepped (sn : snake.t) (head : Point) :
  snake.getNextStepHeadPoint sn = Ok (Some head) ->
  snake.makeStep sn = Ok (stepped sn head).
Proof.
  intro Hhead. unfold snake.makeStep.
  assert (Hsame : forall lastStep,
            snake.getNextStepHeadPoint
              {| snake.body := snake.body sn;
                 snake.direction := snake.direction sn;
                 snake.lastStepDirection := lastStep;
                 snake.maxX := snake.maxX sn;
                 snake.maxY := snake.maxY sn |} = Ok (Some head))
    by (intro lastStep; rewrite <- Hhead; reflexivity).
  cbv zeta. rewrite Hsame. reflexivity.
Qed.

Lemma removelast_cons_length {A : Type} (a : A) (l : list A) :
  List.length (removelast (a :: l)) = List.length l.
Proof.
  revert a. induction l as [| b l IH]; intro a; [reflexivity |].
  change (removelast (a :: b :: l)) with (a :: removelast (b :: l)).
  cbn [List.length]. rewrite IH. reflexivity.
Qed.


Lemma growUp_grown (sn : snake.t) (firstPoint : Point) (rest : list Point) :
  snake.body sn = firstPoint :: rest ->
  snake.growUp sn = Ok (snake.setBody sn (grown (snake.body sn) firstPoint)).
Proof.
  intro Hb. unfold snake.growUp, grown. rewrite Hb. rewrite point_eta. reflexivity.
Qed.

Lemma grown_In (body : list Point) (firstPoint : Point) (rest : list Point) (p : Point) :
  body = firstPoint :: rest ->
  (In p (grown body firstPoint) <-> In p body).
Proof.
  intro Hb. unfold grown. rewrite in_app_iff. simpl. split.
  - intros [H | [H | []]]; [exact H |]. subst p.
    destruct (exists_last (l := body)) as [l' [a Hl]]; [rewrite Hb; discriminate |].
    rewrite Hl, last_last. apply in_or_app. right. left. reflexivity.
  - intro H. left. exact H.
Qed.

Lemma makeStep_grown (sn : snake.t) (firstPoint : Point) (rest : list Point)
    (head : Point) :
  snake.body sn = firstPoint :: rest ->
  snake.getNextStepHeadPoint sn = Ok (Some head) ->
  snake.makeStep (snake.setBody sn (grown (snake.body sn) firstPoint)) =
    Ok {| snake.body := head :: snake.body sn;
          snake.direction := snake.direction sn;
          snake.lastStepDirection := snake.direction sn;
          snake.maxX := snake.maxX sn;
          snake.maxY := snake.maxY sn |}.
Proof.
  intros Hb Hhead.
  rewrite (makeStep_stepped _ head).
  - unfold stepped, snake.setBody.
    cbn [snake.body snake.direction snake.maxX snake.maxY].
    unfold grown. rewrite app_comm_cons, removelast_last. reflexivity.
  - rewrite <- Hhead.
    apply (nextStep_reads sn _ firstPoint rest
             (rest ++ [last (snake.body sn) firstPoint]) Hb);
      [unfold snake.setBody, grown; cbn [snake.body]; rewrite Hb; reflexivity
      | reflexivity ..].
Qed.

(** A tick whose next head point is free of the snake and holds the food. *)
Lemma tick_eats (g : game.t) (firstPoint : Point) (rest : list Point) (head : Point) :
  snake.body (game.snake g) = firstPoint :: rest ->
  snake.getNextStepHeadPoint (game.snake g) = Ok (Some head) ->
  ~ In head (snake.body (game.snake g)) ->
  game.food g = Some head ->
  game.tickHandler g =
    ('(point, draws) <-
       game.sample (head :: grown (snake.body (game.snake g)) firstPoint)
         (colsCount (game.config g)) (rowsCount (game.config g)) (game.randoms g) ;;
     Ok (fed g head point draws)).
Proof.
  intros Hb Hhead Hfree Hfood.
  unfold game.tickHandler, game.canMakeStep. rewrite Hhead. simpl.
  apply isOnPoint_false in Hfree. unfold snake.isOnPoint in Hfree.
  injection Hfree as Hfree. rewrite Hfree. simpl.
  rewrite Hfood. simpl. rewrite samePoint_refl.
  unfold game.eat. rewrite (growUp_grown _ _ _ Hb). simpl.
  unfold game.getRandomFreeCoordinates, game.exclude. simpl. rewrite Hfood. simpl.
  unfold config.getColsCount, config.getRowsCount.
  destruct (game.sample _ _ _ _) as [[point draws] | e]; simpl; [| reflexivity].
  set (afterFood := game.setFood _ _).
  assert (Hsn : forall g', game.snake g' = game.snake afterFood ->
            snake.makeStep (game.snake g') =
            Ok {| snake.body := head :: snake.body (game.snake g);
                  snake.direction := snake.direction (game.snake g);
                  snake.lastStepDirection := snake.direction (game.snake g);
                  snake.maxX := snake.maxX (game.snake g);
                  snake.maxY := snake.maxY (game.snake g) |}).
  { intros g' ->. subst afterFood. apply (makeStep_grown _ _ _ _ Hb Hhead). }
  assert (Hwon : game.isGameWon afterFood =
                 (Z.of_nat (List.length (snake.body (game.snake g)) + 1)
                    >? winFoodCount (game.config g))).
  { subst afterFood. unfold game.isGameWon, config.getWinFoodCount, grown. simpl.
    rewrite length_app. reflexivity. }
  unfold fed. rewrite Hwon.
  destruct (Z.of_nat _ >? _).
  - rewrite Hsn by (apply (finish_frame afterFood)). simpl.
    subst afterFood. unfold game.finish, game.setSnake, food.setCoordinates. simpl.
    destruct (game.tickInterval g); simpl; rewrite point_eta; reflexivity.
  - rewrite Hsn by reflexivity. simpl.
    subst afterFood. unfold game.setSnake, food.setCoordinates. simpl.
    rewrite point_eta. reflexivity.
Qed.

(** A tick whose next head point is free of the snake and of the food. *)
Lemma tick_moves (g : game.t) (head : Point) :
  snake.getNextStepHeadPoint (game.snake g) = Ok (Some head) ->
  ~ In head (snake.body (game.snake g)) ->
  game.food g <> Some head ->
  game.tickHandler g = Ok (game.setSnake g (stepped (game.snake g) head)).
Proof.
  intros Hhead Hfree Hfood.
  apply isOnPoint_false in Hfree.
  assert (Hoff : food.isOnPoint (game.food g) (Some head) = Ok false).
  { unfold food.isOnPoint. destruct (game.food g) as [foodPoint |]; [| reflexivity].
    destruct (samePoint foodPoint head) eqn:Hsame; [| reflexivity].
    apply samePoint_eq in Hsame. subst foodPoint. contradiction Hfood. reflexivity. }
  unfold game.tickHandler, game.canMakeStep.
  rewrite Hhead. cbn [bind]. rewrite Hfree. cbn [bind negb].
  rewrite Hoff. cbn [bind]. rewrite (makeStep_stepped _ _ Hhead). reflexivity.
Qed.

(** A tick that returns had a next head point. *)
Lemma tick_has_head (g g' : game.t) :
  game.tickHandler g = Ok g' ->
  exists head, snake.getNextStepHeadPoint (game.snake g) = Ok (Some head).
Proof.
  unfold game.tickHandler, game.canMakeStep. intro H.
  destruct (snake.getNextStepHeadPoint (game.snake g)) as [[head |] | e];
    simpl in H; [exists head; reflexivity | | discriminate H].
  destruct (snake.body (game.snake g)); simpl in H; discriminate H.
Qed.

Lemma canMakeStep_true (g : game.t) (head : Point) :
  snake.getNextStepHeadPoint (game.snake g) = Ok (Some head) ->
  (game.canMakeStep g = Ok true <-> ~ In head (snake.body (game.snake g))).
Proof.
  intro Hhead. unfold game.canMakeStep. rewrite Hhead. cbn [bind].
  rewrite <- isOnPoint_false. unfold snake.isOnPoint.
  destruct (existsb _ _); simpl; split; congruence.
Qed.

Lemma food_isOnPoint_true (f : food.t) (p : Point) :
  food.isOnPoint f (Some p) = Ok true <-> f = Some p.
Proof.
  unfold food.isOnPoint. destruct f as [foodPoint |]; [| split; discriminate].
  destruct (samePoint foodPoint p) eqn:Hsame.
  - apply samePoint_eq in Hsame. subst. split; reflexivity.
  - split; [discriminate |]. intro H. injection H as ->.
    rewrite samePoint_refl in Hsame. discriminate Hsame.
Qed.

Lemma food_isOnPoint_false (f : food.t) (p : Point) :
  food.isOnPoint f (Some p) = Ok false <-> f <> Some p.
Proof.
  rewrite <- food_isOnPoint_true. unfold food.isOnPoint.
  destruct f as [foodPoint |]; [| split; congruence].
  destruct (samePoint foodPoint p); split; congruence.
Qed.

(** An eating tick returns as soon as the random supply holds a free cell, and
    then as [fed] describes. *)
Lemma tick_eats_returns (g : game.t) (head : Point) :
  snake.getNextStepHeadPoint (game.snake g) = Ok (Some head) ->
  ~ In head (snake.body (game.snake g)) ->
  game.food g = Some head ->
  findsFree (game.exclude g) (colsCount (game.config g))
    (rowsCount (game.config g)) (game.randoms g) ->
  exists point draws,
    game.tickHandler g = Ok (fed g head point draws)
    /\ point <> head /\ ~ In point (snake.body (game.snake g)).
Proof.
  intros Hhead Hfree Hfood Hdraws.
  destruct (nextStep_defined _ _ Hhead) as [firstPoint [rest [Hb _]]].
  apply (findsFree_same_points _
           (head :: grown (snake.body (game.snake g)) firstPoint)) in Hdraws.
  - destruct (sample_returns _ _ _ _ Hdraws) as [point [draws Hsample]].
    exists point, draws. rewrite (tick_eats g firstPoint rest head Hb Hhead Hfree Hfood).
    rewrite Hsample. split; [reflexivity |].
    apply sample_free in Hsample. split.
    + intros ->. apply Hsample. left. reflexivity.
    + intro Hin. apply Hsample. right.
      apply (proj2 (grown_In _ firstPoint rest point Hb)). exact Hin.
  - intros p [<- | Hin]; apply exclude_In.
    + left. exact Hfood.
    + right. apply (proj1 (grown_In _ firstPoint rest p Hb)). exact Hin.
Qed.

(** ** The win check *)

(** C2.  In a tick of a game in play that gets past the collision check:
    if the food is on the next head point and the random supply holds a free
    cell, the tick returns with the body one longer, and the status is
    finished exactly when that post-growth length is strictly greater than
    [winFoodCount] (so with [winFoodCount = 5] growing to length 6 finishes
    the game); if the food is not on the next head point the tick returns with
    the status and the length as they were, whatever the length: the win check
    is made only when food is eaten. *)
Theorem win_checked_only_when_food_eaten :
  forall (g : game.t) (head : Point),
    status.isPlaying (game.status g) = true ->
    snake.getNextStepHeadPoint (game.snake g) = Ok (Some head) ->
    game.canMakeStep g = Ok true ->
    (food.isOnPoint (game.food g) (Some head) = Ok true ->
     findsFree (game.exclude g) (colsCount (game.config g))
       (rowsCount (game.config g)) (game.randoms g) ->
     exists g',
       game.tickHandler g = Ok g'
       /\ List.length (snake.body (game.snake g')) =
            S (List.length (snake.body (game.snake g)))
       /\ (game.status g' = "finished" <->
             Z.of_nat (List.length (snake.body (game.snake g')))
               > winFoodCount (game.config g))
       /\ (winFoodCount (game.config g) = 5 ->
           List.length (snake.body (game.snake g')) = 6%nat ->
           game.status g' = "finished"))
    /\ (food.isOnPoint (game.food g) (Some head) = Ok false ->
        exists g',
          game.tickHandler g = Ok g'
          /\ game.status g' = game.status g
          /\ List.length (snake.body (game.snake g')) =
               List.length (snake.body (game.snake g))).
Proof.
  intros g head Hplaying Hhead Hcan.
  apply (canMakeStep_true g head Hhead) in Hcan.
  unfold status.isPlaying in Hplaying. apply String.eqb_eq in Hplaying.
  split.
  - intros Hfood Hdraws. apply food_isOnPoint_true in Hfood.
    destruct (tick_eats_returns g head Hhead Hcan Hfood Hdraws)
      as [point [draws [Htick _]]].
    exists (fed g head point draws). split; [exact Htick |].
    assert (Hlen : List.length (snake.body (game.snake (fed g head point draws))) =
                   S (List.length (snake.body (game.snake g)))) by reflexivity.
    assert (Hstatus : game.status (fed g head point draws) = "finished" <->
              Z.of_nat (List.length (snake.body (game.snake (fed g head point draws))))
                > winFoodCount (game.config g)).
    { rewrite Hlen. unfold fed. cbn [game.status].
      replace (List.length (snake.body (game.snake g)) + 1)%nat
        with (S (List.length (snake.body (game.snake g)))) by lia.
      destruct (Z.gtb_spec (Z.of_nat (S (List.length (snake.body (game.snake g)))))
                  (winFoodCount (game.config g))) as [Hgt | Hle].
      - split; [lia | reflexivity].
      - rewrite Hplaying. split; [discriminate | lia]. }
    split; [exact Hlen |]. split; [exact Hstatus |].
    intros Hwin H6. apply Hstatus. rewrite H6, Hwin. reflexivity.
  - intro Hfood. apply food_isOnPoint_false in Hfood.
    exists (game.setSnake g (stepped (game.snake g) head)).
    split; [apply tick_moves; assumption |]. split; [reflexivity |].
    unfold stepped. cbn [game.snake game.setSnake snake.body].
    destruct (nextStep_defined _ _ Hhead) as [firstPoint [rest [Hb _]]].
    apply removelast_cons_length.
Qed.

Lemma win_checked_only_when_food_eaten_witness :
  status.isPlaying (game.status aboutToWin) = true
  /\ snake.getNextStepHeadPoint (game.snake aboutToWin) = Ok (Some {| x := 10; y := 9 |})
  /\ game.canMakeStep aboutToWin = Ok true
  /\ food.isOnPoint (game.food aboutToWin) (Some {| x := 10; y := 9 |}) = Ok true
  /\ exists g',
       game.tickHandler aboutToWin = Ok g'
       /\ List.length (snake.body (game.snake g')) = 6%nat
       /\ game.status g' = "finished".
Proof.
  assert (Hplaying : status.isPlaying (game.status aboutToWin) = true) by reflexivity.
  assert (Hhead : snake.getNextStepHeadPoint (game.snake aboutToWin) =
                  Ok (Some {| x := 10; y := 9 |})) by reflexivity.
  assert (Hcan : game.canMakeStep aboutToWin = Ok true) by reflexivity.
  assert (Hfood : food.isOnPoint (game.food aboutToWin) (Some {| x := 10; y := 9 |}) =
                  Ok true) by reflexivity.
  assert (Hdraws : findsFree (game.exclude aboutToWin)
                     (colsCount (game.config aboutToWin))
                     (rowsCount (game.config aboutToWin)) (game.randoms aboutToWin)).
  { apply findsFree_now. vm_compute. intuition discriminate. }
  repeat (split; [assumption |]).
  destruct (proj1 (win_checked_only_when_food_eaten aboutToWin _ Hplaying Hhead Hcan)
              Hfood Hdraws) as [g' [Htick [Hlen [_ Hfive]]]].
  exists g'. split; [exact Htick |]. split; [exact Hlen |].
  apply Hfive; [reflexivity | exact Hlen].
Defined.

(** ** Growth within one tick *)

(** C6.  For a snake of length 1 and score 0 whose next head point holds the
    food (the food not lying under the snake), and a random supply that holds
    a free cell, a single tick returns with a body of length 2, its head on
    the former food cell and its second segment on the former head, and with
    score 1.  The body is first grown by a copy of its last segment and then
    moved: [makeStep] of the grown snake is the snake after the tick. *)
Theorem one_tick_eats_and_grows :
  forall (g : game.t) (firstPoint foodPoint : Point),
    snake.body (game.snake g) = [firstPoint] ->
    snake.getNextStepHeadPoint (game.snake g) = Ok (Some foodPoint) ->
    game.food g = Some foodPoint ->
    foodPoint <> firstPoint ->
    game.score g = 0 ->
    findsFree (game.exclude g) (colsCount (game.config g))
      (rowsCount (game.config g)) (game.randoms g) ->
    exists g',
      game.tickHandler g = Ok g'
      /\ snake.body (game.snake g') = [foodPoint; firstPoint]
      /\ List.length (snake.body (game.snake g')) = 2%nat
      /\ game.score g' = 1
      /\ exists grownSnake,
           snake.growUp (game.snake g) = Ok grownSnake
           /\ snake.body grownSnake = [firstPoint; firstPoint]
           /\ snake.makeStep grownSnake = Ok (game.snake g').
Proof.
  intros g firstPoint foodPoint Hb Hhead Hfood Hne Hscore Hdraws.
  assert (Hfree : ~ In foodPoint (snake.body (game.snake g))).
  { rewrite Hb. simpl. intros [H | []]. apply Hne. symmetry. exact H. }
  destruct (tick_eats_returns g foodPoint Hhead Hfree Hfood Hdraws)
    as [point [draws [Htick _]]].
  exists (fed g foodPoint point draws). split; [exact Htick |].
  unfold fed. cbn [game.snake game.score snake.body]. rewrite Hb, Hscore.
  repeat split.
  exists (snake.setBody (game.snake g) (grown (snake.body (game.snake g)) firstPoint)).
  split; [apply (growUp_grown _ firstPoint []); exact Hb |].
  split; [unfold grown; cbn [snake.setBody snake.body]; rewrite Hb; reflexivity |].
  rewrite (makeStep_grown _ firstPoint [] foodPoint Hb Hhead), Hb. reflexivity.
Qed.

Lemma one_tick_eats_and_grows_witness :
  snake.body (game.snake aboutToEat) = [ {| x := 10; y := 10 |} ]
  /\ game.food aboutToEat = Some {| x := 10; y := 9 |}
  /\ exists g',
       game.tickHandler aboutToEat = Ok g'
       /\ snake.body (game.snake g') = [ {| x := 10; y := 9 |}; {| x := 10; y := 10 |} ]
       /\ game.score g' = 1.
Proof.
  assert (Hdraws : findsFree (game.exclude aboutToEat)
                     (colsCount (game.config aboutToEat))
                     (rowsCount (game.config aboutToEat)) (game.randoms aboutToEat)).
  { apply findsFree_later, findsFree_now. vm_compute. intuition discriminate. }
  assert (Hne : {| x := 10; y := 9 |} <> {| x := 10; y := 10 |}) by discriminate.
  split; [reflexivity |]. split; [reflexivity |].
  destruct (one_tick_eats_and_grows aboutToEat _ _ eq_refl eq_refl eq_refl Hne
              eq_refl Hdraws) as [g' [Htick [Hbody [_ [Hscore _]]]]].
  exists g'. split; [exact Htick |]. split; [exact Hbody | exact Hscore].
Defined.

(** ** Where the new food may land *)

Lemma eat_atPlacement (g : game.t) (grownSnake : snake.t) :
  snake.growUp (game.snake g) = Ok grownSnake ->
  game.eat g =
    ('(point, placed) <- game.getRandomFreeCoordinates (atPlacement g grownSnake) ;;
     let placed := game.setFood placed (food.setCoordinates (game.food placed) point) in
     Ok (if game.isGameWon placed then game.finish placed else placed)).
Proof. intro Hgrow. unfold game.eat. rewrite Hgrow. reflexivity. Qed.

(** A supply of two draws that the loop turns into a given free cell. *)
Lemma sample_can_return (exclude : list Point) (cols rows : Z) (cell : Point) :
  onBoard cols rows cell ->
  ~ In cell exclude ->
  exists rx ry,
    unitInterval rx /\ unitInterval ry
    /\ game.sample exclude cols rows [rx; ry] = Ok (cell, []).
Proof.
  intros [Hx Hy] Hfree.
  destruct (floorRandom_pick cols (x cell) Hx) as [Hrx Hfx].
  destruct (floorRandom_pick rows (y cell) Hy) as [Hry Hfy].
  exists (x cell # Z.to_pos cols)%Q, (y cell # Z.to_pos rows)%Q.
  split; [exact Hrx |]. split; [exact Hry |].
  cbn [game.sample]. rewrite Hfx, Hfy, point_eta.
  apply not_excluded_In in Hfree. rewrite Hfree. reflexivity.
Qed.

(** C1, as the code has it.  In an eating tick the exclude list of the food
    placement holds the points of the grown body and the coordinate of the
    food being eaten, and nothing else; that coordinate is not on the body.
    Every cell of the board that is neither on the grown body nor the eaten
    food's cell is returned under some random supply, no supply makes the
    placement return a cell of the grown body or the eaten food's cell, and
    values of the unit interval make it return a cell of the board.  What
    this placement returns is the food after the tick. *)
Theorem food_placement_excludes_body_and_eaten_food :
  forall (g : game.t) (head : Point) (grownSnake : snake.t),
    snake.getNextStepHeadPoint (game.snake g) = Ok (Some head) ->
    game.canMakeStep g = Ok true ->
    food.isOnPoint (game.food g) (Some head) = Ok true ->
    snake.growUp (game.snake g) = Ok grownSnake ->
    (forall p, In p (game.exclude (atPlacement g grownSnake)) <->
               p = head \/ In p (snake.body grownSnake))
    /\ ~ In head (snake.body grownSnake)
    /\ (forall cell,
          onBoard (colsCount (game.config g)) (rowsCount (game.config g)) cell ->
          cell <> head ->
          ~ In cell (snake.body grownSnake) ->
          exists rx ry,
            unitInterval rx /\ unitInterval ry
            /\ game.getRandomFreeCoordinates
                 (game.setRandoms (atPlacement g grownSnake) [rx; ry]) =
               Ok (cell, game.setRandoms (atPlacement g grownSnake) []))
    /\ (forall draws cell placed,
          game.getRandomFreeCoordinates
            (game.setRandoms (atPlacement g grownSnake) draws) = Ok (cell, placed) ->
          cell <> head /\ ~ In cell (snake.body grownSnake))
    /\ (forall draws cell placed,
          0 < colsCount (game.config g) -> 0 < rowsCount (game.config g) ->
          Forall unitInterval draws ->
          game.getRandomFreeCoordinates
            (game.setRandoms (atPlacement g grownSnake) draws) = Ok (cell, placed) ->
          onBoard (colsCount (game.config g)) (rowsCount (game.config g)) cell)
    /\ (forall cell placed,
          game.getRandomFreeCoordinates (atPlacement g grownSnake) = Ok (cell, placed) ->
          exists g', game.tickHandler g = Ok g' /\ game.food g' = Some cell).
Proof.
  intros g head grownSnake Hhead Hcan Hfood Hgrow.
  apply (canMakeStep_true g head Hhead) in Hcan.
  apply food_isOnPoint_true in Hfood.
  destruct (nextStep_defined _ _ Hhead) as [firstPoint [rest [Hb _]]].
  rewrite (growUp_grown _ _ _ Hb) in Hgrow. injection Hgrow as <-.
  cbn [snake.setBody snake.body].
  assert (Hex : forall draws p,
            In p (game.exclude
                    (game.setRandoms
                       (atPlacement g
                          (snake.setBody (game.snake g)
                             (grown (snake.body (game.snake g)) firstPoint))) draws)) <->
            p = head \/ In p (grown (snake.body (game.snake g)) firstPoint)).
  { intros draws p. rewrite exclude_In. cbn. rewrite Hfood.
    split; (intros [H | H]; [left; congruence | right; exact H]). }
  assert (Hbody : ~ In head (grown (snake.body (game.snake g)) firstPoint)).
  { intro Hin. apply Hcan, (proj1 (grown_In _ firstPoint rest head Hb)), Hin. }
  split; [| split; [exact Hbody | split; [| split; [| split]]]].
  - intro p. rewrite <- (Hex (game.randoms g) p).
    unfold game.exclude. reflexivity.
  - intros cell Hboard Hne Hfree.
    destruct (sample_can_return
                (game.exclude (game.setRandoms
                   (atPlacement g
                      (snake.setBody (game.snake g)
                         (grown (snake.body (game.snake g)) firstPoint))) []))
                _ _ cell Hboard) as [rx [ry [Hrx [Hry Hsample]]]].
    { rewrite Hex. intros [H | H]; [exact (Hne H) | exact (Hfree H)]. }
    exists rx, ry. split; [exact Hrx |]. split; [exact Hry |].
    apply getRandomFreeCoordinates_Ok. exists []. split; [exact Hsample | reflexivity].
  - intros draws cell placed Hret.
    apply getRandomFreeCoordinates_Ok in Hret. destruct Hret as [rest' [Hsample _]].
    apply sample_free in Hsample. rewrite Hex in Hsample.
    split; intro H; apply Hsample; [left | right]; exact H.
  - intros draws cell placed Hc Hr Hunit Hret.
    apply getRandomFreeCoordinates_Ok in Hret. destruct Hret as [rest' [Hsample _]].
    exact (sample_onBoard _ _ _ _ Hc Hr Hunit _ _ Hsample).
  - intros cell placed Hret.
    apply getRandomFreeCoordinates_Ok in Hret. destruct Hret as [rest' [Hsample _]].
    unfold game.exclude in Hsample. cbn in Hsample. rewrite Hfood in Hsample.
    exists (fed g head cell rest').
    rewrite (tick_eats g firstPoint rest head Hb Hhead Hcan Hfood).
    unfold food.getCoordinates, snake.getBody in Hsample. rewrite Hsample.
    split; reflexivity.
Qed.

Lemma food_placement_excludes_body_and_eaten_food_witness :
  snake.getNextStepHeadPoint (game.snake aboutToEat) = Ok (Some {| x := 10; y := 9 |})
  /\ game.canMakeStep aboutToEat = Ok true
  /\ food.isOnPoint (game.food aboutToEat) (Some {| x := 10; y := 9 |}) = Ok true
  /\ snake.growUp (game.snake aboutToEat) =
       Ok (snake.init [ {| x := 10; y := 10 |}; {| x := 10; y := 10 |} ] "up" 20 20)
  /\ exists rx ry,
       unitInterval rx /\ unitInterval ry
       /\ game.getRandomFreeCoordinates
            (game.setRandoms
               (atPlacement aboutToEat
                  (snake.init [ {| x := 10; y := 10 |}; {| x := 10; y := 10 |} ]
                     "up" 20 20))
               [rx; ry]) =
          Ok ({| x := 3; y := 4 |},
              game.setRandoms
                (atPlacement aboutToEat
                   (snake.init [ {| x := 10; y := 10 |}; {| x := 10; y := 10 |} ]
                      "up" 20 20))
                []).
Proof.
  assert (Hhead : snake.getNextStepHeadPoint (game.snake aboutToEat) =
                  Ok (Some {| x := 10; y := 9 |})) by reflexivity.
  assert (Hcan : game.canMakeStep aboutToEat = Ok true) by reflexivity.
  assert (Hfood : food.isOnPoint (game.food aboutToEat) (Some {| x := 10; y := 9 |}) =
                  Ok true) by reflexivity.
  assert (Hgrow : snake.growUp (game.snake aboutToEat) =
                  Ok (snake.init [ {| x := 10; y := 10 |}; {| x := 10; y := 10 |} ]
                        "up" 20 20)) by reflexivity.
  repeat (split; [assumption |]).
  apply (proj1 (proj2 (proj2
           (food_placement_excludes_body_and_eaten_food aboutToEat _ _
              Hhead Hcan Hfood Hgrow))) {| x := 3; y := 4 |}).
  - unfold onBoard. simpl. lia.
  - discriminate.
  - simpl. intuition discriminate.
Defined.

(** C1, as the specification words it, fails on [aboutToEat]: the cell of
    the food being eaten, [(10, 9)], is on the board and not on the grown
    body, yet it is in the exclude list of the placement, and under no random
    supply is it returned. *)
Lemma food_placement_excludes_more_than_body :
  snake.getNextStepHeadPoint (game.snake aboutToEat) = Ok (Some {| x := 10; y := 9 |})
  /\ game.canMakeStep aboutToEat = Ok true
  /\ food.isOnPoint (game.food aboutToEat) (Some {| x := 10; y := 9 |}) = Ok true
  /\ snake.growUp (game.snake aboutToEat) =
       Ok (snake.init [ {| x := 10; y := 10 |}; {| x := 10; y := 10 |} ] "up" 20 20)
  /\ onBoard (colsCount (game.config aboutToEat)) (rowsCount (game.config aboutToEat))
       {| x := 10; y := 9 |}
  /\ ~ In {| x := 10; y := 9 |}
         (snake.body
            (snake.init [ {| x := 10; y := 10 |}; {| x := 10; y := 10 |} ] "up" 20 20))
  /\ In {| x := 10; y := 9 |}
       (game.exclude
          (atPlacement aboutToEat
             (snake.init [ {| x := 10; y := 10 |}; {| x := 10; y := 10 |} ]
                "up" 20 20)))
  /\ ~ exists draws placed,
         game.getRandomFreeCoordinates
           (game.setRandoms
              (atPlacement aboutToEat
                 (snake.init [ {| x := 10; y := 10 |}; {| x := 10; y := 10 |} ]
                    "up" 20 20))
              draws) =
         Ok ({| x := 10; y := 9 |}, placed).
Proof.
  repeat (split; [reflexivity |]).
  split; [unfold onBoard; simpl; lia |].
  split; [simpl; intuition discriminate |].
  split; [simpl; tauto |].
  intros [draws [placed Hret]].
  apply getRandomFreeCoordinates_Ok in Hret. destruct Hret as [rest [Hsample _]].
  apply sample_free in Hsample. apply Hsample. simpl. tauto.
Qed.

(** ** Score and length *)

Lemma reset_Ok (g g' : game.t) :
  game.reset g = Ok g' ->
  exists point draws,
    g' = game.setFood
           (game.setRandoms
              (game.setSnake (game.setScore (game.stop g) 0)
                 (snake.init (game.getStartSnakeBody g) "up"
                    (colsCount (game.config g) - 1) (rowsCount (game.config g) - 1)))
              draws)
           (Some point).
Proof.
  unfold game.reset. intro H. inv_bind H. destruct a as [point placed].
  injection H as <-.
  apply getRandomFreeCoordinates_Ok in Hr. destruct Hr as [draws [_ ->]].
  exists point, draws. unfold food.setCoordinates. rewrite point_eta.
  unfold game.stop, game.getStartSnakeBody, config.getColsCount, config.getRowsCount,
    score.drop.
  cbn [game.tickInterval game.setStatus].
  destruct (game.tickInterval g); reflexivity.
Qed.

Lemma reset_score_length (g g' : game.t) :
  game.reset g = Ok g' -> game.score g' = 0 /\ bodyLength g' = 1.
Proof.
  intro H. destruct (reset_Ok g g' H) as [point [draws ->]].
  split; reflexivity.
Qed.

Lemma playClickHandler_frame (g : game.t) :
  game.score (game.playClickHandler g) = game.score g
  /\ game.snake (game.playClickHandler g) = game.snake g.
Proof.
  unfold game.playClickHandler, game.play, game.stop.
  destruct (status.isPlaying (game.status g)); [| destruct (status.isStopped _)];
    cbn; try (split; reflexivity).
  destruct (game.tickInterval g); split; reflexivity.
Qed.

Lemma keyDownHandler_frame (g : game.t) (code : string) :
  game.score (game.keyDownHandler g code) = game.score g
  /\ snake.body (game.snake (game.keyDownHandler g code)) = snake.body (game.snake g)
  /\ game.status (game.keyDownHandler g code) = game.status g
  /\ game.intervals (game.keyDownHandler g code) = game.intervals g
  /\ game.tickInterval (game.keyDownHandler g code) = game.tickInterval g.
Proof.
  unfold game.keyDownHandler.
  destruct (negb _); [repeat split; reflexivity |].
  destruct (game.canSetDirection _ _); repeat split; reflexivity.
Qed.

(** The three ways a tick returns. *)
Lemma tick_cases (g g' : game.t) :
  game.tickHandler g = Ok g' ->
  exists head,
    snake.getNextStepHeadPoint (game.snake g) = Ok (Some head)
    /\ ((In head (snake.body (game.snake g)) /\ g' = game.finish g)
        \/ (~ In head (snake.body (game.snake g)) /\ game.food g = Some head
            /\ exists point draws, g' = fed g head point draws)
        \/ (~ In head (snake.body (game.snake g)) /\ game.food g <> Some head
            /\ g' = game.setSnake g (stepped (game.snake g) head))).
Proof.
  intro Htick. destruct (tick_has_head g g' Htick) as [head Hhead].
  exists head. split; [exact Hhead |].
  destruct (snake.isOnPoint (game.snake g) (Some head)) as [[|] | e] eqn:Hon;
    [| | discriminate Hon].
  - apply isOnPoint_true in Hon. left. split; [exact Hon |].
    unfold game.tickHandler, game.canMakeStep in Htick.
    rewrite Hhead in Htick. cbn [bind] in Htick.
    rewrite (proj2 (isOnPoint_true _ _) Hon) in Htick. cbn in Htick. congruence.
  - apply isOnPoint_false in Hon. right.
    destruct (food.isOnPoint (game.food g) (Some head)) as [[|] | e] eqn:Hfood.
    + apply food_isOnPoint_true in Hfood. left.
      split; [exact Hon |]. split; [exact Hfood |].
      destruct (nextStep_defined _ _ Hhead) as [firstPoint [rest [Hb _]]].
      rewrite (tick_eats g firstPoint rest head Hb Hhead Hon Hfood) in Htick.
      inv_bind Htick. destruct a as [point draws]. exists point, draws. congruence.
    + apply food_isOnPoint_false in Hfood. right.
      split; [exact Hon |]. split; [exact Hfood |].
      rewrite (tick_moves g head Hhead Hon Hfood) in Htick. congruence.
    + unfold food.isOnPoint in Hfood. destruct (game.food g); discriminate Hfood.
Qed.

Lemma eatsFood_iff (g : game.t) (head : Point) :
  snake.getNextStepHeadPoint (game.snake g) = Ok (Some head) ->
  (eatsFood g <-> ~ In head (snake.body (game.snake g)) /\ game.food g = Some head).
Proof.
  intro Hhead. unfold eatsFood. split.
  - intros [head' [Hhead' [Hcan Hfood]]].
    assert (head' = head) by congruence. subst head'.
    split; [apply (canMakeStep_true g head Hhead), Hcan
           | apply food_isOnPoint_true, Hfood].
  - intros [Hfree Hfood]. exists head. split; [exact Hhead |].
    split; [apply (canMakeStep_true g head Hhead), Hfree
           | apply food_isOnPoint_true, Hfood].
Qed.

(** What one event does to the score and to the length. *)
Lemma handle_score_length (e : event) (g g' : game.t) :
  handle e g = Ok g' ->
  match e with
  | NewGameClick => game.score g' = 0 /\ bodyLength g' = 1
  | Tick =>
      (eatsFood g ->
         game.score g' = game.score g + 1 /\ bodyLength g' = bodyLength g + 1)
      /\ (~ eatsFood g ->
            game.score g' = game.score g /\ bodyLength g' = bodyLength g)
  | PlayClick | KeyDown _ =>
      game.score g' = game.score g /\ bodyLength g' = bodyLength g
  end.
Proof.
  destruct e as [| | | code]; simpl; intro H.
  - destruct (tick_cases g g' H) as [head [Hhead Hcases]].
    rewrite (eatsFood_iff g head Hhead).
    destruct Hcases as [[Hon ->] | [[Hfree [Hfood [point [draws ->]]]] | [Hfree [Hfood ->]]]].
    + split; [intros [Hfree _]; contradiction |]. intros _.
      unfold bodyLength. destruct (finish_frame g) as [_ [-> [_ [-> _]]]].
      split; reflexivity.
    + split; [| intro Hno; exfalso; apply Hno; split; assumption]. intros _.
      unfold bodyLength, fed. cbn [game.score game.snake snake.body List.length].
      split; [reflexivity | lia].
    + split; [intros [_ Hfood']; contradiction |]. intros _.
      unfold bodyLength, stepped.
      cbn [game.score game.setSnake game.snake snake.body].
      rewrite removelast_cons_length. split; reflexivity.
  - injection H as <-. unfold bodyLength.
    destruct (playClickHandler_frame g) as [-> ->]. split; reflexivity.
  - exact (reset_score_length g g' H).
  - injection H as <-. unfold bodyLength.
    destruct (keyDownHandler_frame g code) as [-> [-> _]]. split; reflexivity.
Qed.

Lemma eatsFood_dec (g : game.t) : eatsFood g \/ ~ eatsFood g.
Proof.
  unfold eatsFood.
  destruct (snake.getNextStepHeadPoint (game.snake g)) as [[head |] | e] eqn:Hhead.
  - destruct (game.canMakeStep g) as [[|] | e] eqn:Hcan.
    + destruct (food.isOnPoint (game.food g) (Some head)) as [[|] | e] eqn:Hfood.
      * left. exists head. repeat split; assumption.
      * right. intros [h [Hh [_ Hf]]]. congruence.
      * right. intros [h [Hh [_ Hf]]]. congruence.
    + right. intros [h [_ [Hc _]]]. discriminate Hc.
    + right. intros [h [_ [Hc _]]]. discriminate Hc.
  - right. intros [h [Hh _]]. discriminate Hh.
  - right. intros [h [Hh _]]. discriminate Hh.
Qed.

(** C10.  After [reset()] the score is 0 and the body length 1; in every
    state the game gets to from there by ticks and input events the score is
    the body length minus 1; and from such a state an event changes the two
    only as follows: a new-game click sets them back to 0 and 1, a tick that
    eats adds exactly 1 to both, and every other event (a tick that does not
    eat, a play click, a key press) leaves both as they are. *)
Theorem score_is_length_minus_one :
  forall (g0 g1 g : game.t),
    game.reset g0 = Ok g1 ->
    steps g1 g ->
    (game.score g1 = 0 /\ bodyLength g1 = 1)
    /\ game.score g = bodyLength g - 1
    /\ forall (e : event) (g' : game.t),
         enabled e g ->
         handle e g = Ok g' ->
         match e with
         | NewGameClick => game.score g' = 0 /\ bodyLength g' = 1
         | Tick =>
             (eatsFood g ->
                game.score g' = game.score g + 1 /\ bodyLength g' = bodyLength g + 1)
             /\ (~ eatsFood g ->
                   game.score g' = game.score g /\ bodyLength g' = bodyLength g)
         | PlayClick | KeyDown _ =>
             game.score g' = game.score g /\ bodyLength g' = bodyLength g
         end.
Proof.
  intros g0 g1 g Hreset Hsteps.
  pose proof (reset_score_length g0 g1 Hreset) as Hstart.
  split; [exact Hstart |]. split.
  - induction Hsteps as [| g2 g3 Hsteps IH [e He Hh]].
    + destruct Hstart as [-> ->]. reflexivity.
    + pose proof (handle_score_length e g2 g3 Hh) as Hev.
      destruct e as [| | | code].
      * destruct (eatsFood_dec g2) as [Heats | Hno];
          [destruct (proj1 Hev Heats) | destruct (proj2 Hev Hno)]; lia.
      * destruct Hev. lia.
      * destruct Hev as [-> ->]. reflexivity.
      * destruct Hev. lia.
  - intros e g' _ Hh. apply handle_score_length. exact Hh.
Qed.

Lemma started_by_init : game.init freshPage speedFive = Ok started.
Proof. reflexivity. Qed.

Lemma afterFirstFood_steps : steps started afterFirstFood.
Proof.
  apply steps_then with (g1 := game.play started).
  - apply steps_then with (g1 := started); [apply steps_refl |].
    apply (step_event _ _ PlayClick); [exact I | reflexivity].
  - apply (step_event _ _ Tick); [simpl; discriminate | reflexivity].
Qed.

Lemma score_is_length_minus_one_witness :
  game.reset (game.setConfig freshPage (game.config started)) = Ok started
  /\ steps started afterFirstFood
  /\ game.score afterFirstFood = bodyLength afterFirstFood - 1.
Proof.
  assert (Hreset : game.reset (game.setConfig freshPage (game.config started)) =
                   Ok started) by reflexivity.
  split; [exact Hreset |]. split; [exact afterFirstFood_steps |].
  exact (proj1 (proj2 (score_is_length_minus_one _ _ _ Hreset afterFirstFood_steps))).
Defined.

(** ** The tick interval *)

Lemma clearInterval_only (g : game.t) (id : nat) :
  game.intervals g = [id] ->
  game.intervals (game.clearInterval g (Some id)) = [].
Proof. intro H. simpl. rewrite H. simpl. rewrite Nat.eqb_refl. reflexivity. Qed.

Lemma clearInterval_none (g : game.t) (id : option nat) :
  game.intervals g = [] ->
  game.intervals (game.clearInterval g id) = [].
Proof. intro H. destruct id; simpl; rewrite ?H; reflexivity. Qed.

Lemma stop_intervals (g : game.t) :
  intervalInvariant g -> game.intervals (game.stop g) = [].
Proof.
  unfold game.stop. cbn [game.tickInterval game.setStatus].
  intros [[_ [id [Hid Hlive]]] | [_ Hnone]].
  - rewrite Hid. apply clearInterval_only. exact Hlive.
  - apply clearInterval_none. exact Hnone.
Qed.

Lemma finish_intervals (g : game.t) :
  intervalInvariant g -> game.intervals (game.finish g) = [].
Proof.
  unfold game.finish. cbn [game.tickInterval game.setStatus].
  intros [[_ [id [Hid Hlive]]] | [_ Hnone]].
  - rewrite Hid. apply clearInterval_only. exact Hlive.
  - apply clearInterval_none. exact Hnone.
Qed.

Lemma filter_twice {A : Type} (f : A -> bool) (l : list A) :
  filter f (filter f l) = filter f l.
Proof.
  induction l as [| a l IH]; [reflexivity |].
  simpl. destruct (f a) eqn:Hfa; simpl; rewrite ?Hfa, IH; reflexivity.
Qed.

Lemma stop_idempotent (g : game.t) : game.stop (game.stop g) = game.stop g.
Proof.
  destruct g as [c sn f st sc [id |] live next draws]; unfold game.stop; cbn.
  - rewrite filter_twice. reflexivity.
  - reflexivity.
Qed.

Lemma reset_intervals (g g' : game.t) :
  game.intervals (game.stop g) = [] -> game.reset g = Ok g' -> intervalInvariant g'.
Proof.
  intros Hnone Hreset. destruct (reset_Ok g g' Hreset) as [point [draws ->]].
  right. cbn [game.status game.intervals game.setFood game.setRandoms game.setSnake
              game.setScore].
  split; [| exact Hnone].
  destruct (stop_frame g) as [_ [_ [_ [_ [_ ->]]]]]. discriminate.
Qed.

Lemma reset_invariant (g g' : game.t) :
  intervalInvariant g -> game.reset g = Ok g' -> intervalInvariant g'.
Proof.
  intros Hinv. apply reset_intervals, stop_intervals, Hinv.
Qed.

Lemma playClickHandler_invariant (g : game.t) :
  intervalInvariant g -> intervalInvariant (game.playClickHandler g).
Proof.
  intro Hinv. unfold game.playClickHandler.
  destruct (status.isPlaying (game.status g)) eqn:Hplaying.
  - right. split; [| apply stop_intervals; exact Hinv].
    destruct (stop_frame g) as [_ [_ [_ [_ [_ ->]]]]]. discriminate.
  - destruct (status.isStopped (game.status g)) eqn:Hstopped; [| exact Hinv].
    left. split; [reflexivity |]. exists (game.nextInterval g).
    split; [reflexivity |]. cbn.
    destruct Hinv as [[Hst _] | [_ ->]]; [| reflexivity].
    unfold status.isPlaying in Hplaying. rewrite Hst in Hplaying. discriminate Hplaying.
Qed.

Lemma tickHandler_invariant (g g' : game.t) :
  intervalInvariant g -> game.tickHandler g = Ok g' -> intervalInvariant g'.
Proof.
  intros Hinv Htick. destruct (tick_cases g g' Htick) as [head [_ Hcases]].
  destruct Hcases as [[_ ->] | [[_ [_ [point [draws ->]]]] | [_ [_ ->]]]].
  - right. split; [| apply finish_intervals; exact Hinv].
    destruct (finish_frame g) as [_ [_ [_ [_ [_ ->]]]]]. discriminate.
  - unfold intervalInvariant, fed.
    cbn [game.status game.intervals game.tickInterval].
    destruct (_ >? _); [| exact Hinv].
    right. split; [discriminate |].
    destruct Hinv as [[_ [id [Hid Hlive]]] | [_ Hnone]].
    + rewrite Hid. apply clearInterval_only. exact Hlive.
    + apply clearInterval_none. exact Hnone.
  - exact Hinv.
Qed.

Lemma keyDownHandler_invariant (g : game.t) (code : string) :
  intervalInvariant g -> intervalInvariant (game.keyDownHandler g code).
Proof.
  unfold intervalInvariant.
  destruct (keyDownHandler_frame g code) as [_ [_ [-> [-> ->]]]]. tauto.
Qed.

Lemma reachable_invariant (g : game.t) : reachable g -> intervalInvariant g.
Proof.
  induction 1 as [g0 g userSettings Hfresh Hvalid Hinit | g g' _ IH [e He Hh]].
  - unfold game.init in Hinit. cbn [game.config game.setConfig] in Hinit.
    rewrite Hvalid in Hinit. cbn [negb] in Hinit.
    apply (reset_intervals _ g) in Hinit; [exact Hinit |].
    unfold game.stop. apply clearInterval_none. exact Hfresh.
  - destruct e as [| | | code]; simpl in Hh.
    + exact (tickHandler_invariant g g' IH Hh).
    + injection Hh as <-. apply playClickHandler_invariant, IH.
    + exact (reset_invariant g g' IH Hh).
    + injection Hh as <-. apply keyDownHandler_invariant, IH.
Qed.

Lemma invariant_at_most_one (g : game.t) :
  intervalInvariant g -> (List.length (game.intervals g) <= 1)%nat.
Proof.
  intros [[_ [id [_ ->]]] | [_ ->]]; simpl; lia.
Qed.

(** [play] itself does not look at the live intervals: called on a game that
    is already playing it would start a second one.  The guard is the status
    test of [playClickHandler], the only caller. *)
Remark play_relies_on_its_caller :
  game.intervals (game.play (game.play started)) = [1%nat; 0%nat].
Proof. reflexivity. Qed.

(** C4.  In every state of a started game at most one interval is live, and
    none unless the status is playing.  [stop()] and [finish()] leave no
    interval live when they return.  [playClickHandler], the only caller of
    [play()], calls it only on a stopped game, where no interval is live, so
    that exactly one is live afterwards.  A second [stop()] changes nothing
    and no interval is live after it.  Whatever event comes next, at most one
    interval is live after it. *)
Theorem at_most_one_tick_interval :
  forall g : game.t,
    reachable g ->
    (List.length (game.intervals g) <= 1)%nat
    /\ (status.isPlaying (game.status g) = false -> game.intervals g = [])
    /\ (game.intervals (game.stop g) = [] /\ game.status (game.stop g) = "stopped")
    /\ (game.intervals (game.finish g) = [] /\ game.status (game.finish g) = "finished")
    /\ (status.isStopped (game.status g) = true ->
          game.playClickHandler g = game.play g)
    /\ (game.playClickHandler g = game.play g ->
          game.intervals g = []
          /\ exists id,
               game.intervals (game.play g) = [id]
               /\ game.tickInterval (game.play g) = Some id)
    /\ (game.stop (game.stop g) = game.stop g
        /\ game.intervals (game.stop (game.stop g)) = [])
    /\ (forall (e : event) (g' : game.t),
          enabled e g -> handle e g = Ok g' ->
          (List.length (game.intervals g') <= 1)%nat).
Proof.
  intros g Hreach. pose proof (reachable_invariant g Hreach) as Hinv.
  assert (Hidle : status.isPlaying (game.status g) = false -> game.intervals g = []).
  { unfold status.isPlaying. intro Hnot.
    destruct Hinv as [[Hst _] | [_ Hnone]]; [| exact Hnone].
    rewrite Hst in Hnot. discriminate Hnot. }
  split; [apply invariant_at_most_one, Hinv |].
  split; [exact Hidle |].
  split; [split; [apply stop_intervals, Hinv | apply (stop_frame g)] |].
  split; [split; [apply finish_intervals, Hinv | apply (finish_frame g)] |].
  split; [| split; [| split]].
  - unfold game.playClickHandler, status.isStopped, status.isPlaying.
    intro Hstopped. apply String.eqb_eq in Hstopped. rewrite Hstopped. reflexivity.
  - intro Hcalls.
    assert (Hnone : game.intervals g = []).
    { apply Hidle. destruct (status.isPlaying (game.status g)) eqn:Hplaying;
        [| reflexivity].
      unfold game.playClickHandler in Hcalls. rewrite Hplaying in Hcalls.
      apply (f_equal game.status) in Hcalls.
      destruct (stop_frame g) as [_ [_ [_ [_ [_ Hst]]]]]. rewrite Hst in Hcalls.
      discriminate Hcalls. }
    split; [exact Hnone |]. exists (game.nextInterval g).
    unfold game.play. cbn. rewrite Hnone. split; reflexivity.
  - split; [apply stop_idempotent |].
    rewrite stop_idempotent. apply stop_intervals, Hinv.
  - intros e g' He Hh. apply invariant_at_most_one, reachable_invariant.
    apply reachable_step with (g := g); [exact Hreach |].
    exact (step_event g g' e He Hh).
Qed.

Lemma started_reachable : reachable started.
Proof.
  apply (reachable_init freshPage started speedFive);
    [reflexivity | reflexivity | exact started_by_init].
Qed.

Lemma at_most_one_tick_interval_witness :
  reachable (game.play started)
  /\ game.intervals (game.play started) = [0%nat]
  /\ game.intervals (game.stop (game.play started)) = []
  /\ game.intervals (game.stop (game.stop (game.play started))) = [].
Proof.
  assert (Hreach : reachable (game.play started)).
  { apply reachable_step with (g := started); [exact started_reachable |].
    apply (step_event _ _ PlayClick); [exact I | reflexivity]. }
  split; [exact Hreach |]. split; [reflexivity |].
  pose proof (at_most_one_tick_interval (game.play started) Hreach)
    as [_ [_ [[Hstop _] [_ [_ [_ [[_ Htwice] _]]]]]]].
  split; [exact Hstop | exact Htwice].
Defined.

(** ** A started game does not throw *)

Lemma wellFormed_has_head (g : game.t) :
  wellFormed g ->
  exists head, snake.getNextStepHeadPoint (game.snake g) = Ok (Some head).
Proof.
  intros [Hbody Hdir].
  destruct (snake.body (game.snake g)) as [| firstPoint rest] eqn:Hb;
    [contradiction Hbody; reflexivity |].
  simpl in Hdir. destruct Hdir as [Hd | [Hd | [Hd | [Hd | []]]]]; symmetry in Hd.
  - rewrite (nextStep_up _ _ _ Hb Hd). eexists. reflexivity.
  - rewrite (nextStep_right _ _ _ Hb Hd). eexists. reflexivity.
  - rewrite (nextStep_down _ _ _ Hb Hd). eexists. reflexivity.
  - rewrite (nextStep_left _ _ _ Hb Hd). eexists. reflexivity.
Qed.

Lemma canSetDirection_direction (g : game.t) (d : string) :
  game.canSetDirection g d = true -> In d ["up"; "right"; "down"; "left"].
Proof.
  unfold game.canSetDirection. intro H.
  destruct (String.eqb d "up") eqn:Hup;
    [apply String.eqb_eq in Hup; rewrite Hup; simpl; tauto |].
  destruct (String.eqb d "right") eqn:Hright;
    [apply String.eqb_eq in Hright; rewrite Hright; simpl; tauto |].
  destruct (String.eqb d "down") eqn:Hdown;
    [apply String.eqb_eq in Hdown; rewrite Hdown; simpl; tauto |].
  destruct (String.eqb d "left") eqn:Hleft;
    [apply String.eqb_eq in Hleft; rewrite Hleft; simpl; tauto |].
  discriminate H.
Qed.

Lemma reset_wellFormed (g g' : game.t) : game.reset g = Ok g' -> wellFormed g'.
Proof.
  intro H. destruct (reset_Ok g g' H) as [point [draws ->]].
  split; [discriminate | simpl; tauto].
Qed.

Lemma handle_wellFormed (e : event) (g g' : game.t) :
  wellFormed g -> handle e g = Ok g' -> wellFormed g'.
Proof.
  intros [Hbody Hdir] Hh. destruct e as [| | | code]; simpl in Hh.
  - destruct (tick_cases g g' Hh) as [head [_ Hcases]].
    destruct Hcases as [[_ ->] | [[_ [_ [point [draws ->]]]] | [_ [_ ->]]]].
    + unfold wellFormed. destruct (finish_frame g) as [_ [-> _]].
      split; assumption.
    + split; [discriminate | exact Hdir].
    + split; [| exact Hdir].
      unfold stepped. cbn [game.snake game.setSnake snake.body].
      intro Hnil. apply (f_equal (@List.length Point)) in Hnil.
      rewrite removelast_cons_length in Hnil.
      destruct (snake.body (game.snake g)); [contradiction Hbody; reflexivity |].
      discriminate Hnil.
  - injection Hh as <-. unfold wellFormed.
    destruct (playClickHandler_frame g) as [_ ->]. split; assumption.
  - exact (reset_wellFormed g g' Hh).
  - injection Hh as <-. unfold game.keyDownHandler.
    destruct (negb _); [split; assumption |].
    destruct (game.canSetDirection g _) eqn:Hcan; [| split; assumption].
    split; [exact Hbody | exact (canSetDirection_direction g _ Hcan)].
Qed.

Lemma reachable_wellFormed (g : game.t) : reachable g -> wellFormed g.
Proof.
  induction 1 as [g0 g userSettings _ Hvalid Hinit | g g' _ IH [e _ Hh]].
  - unfold game.init in Hinit. cbn [game.config game.setConfig] in Hinit.
    rewrite Hvalid in Hinit. exact (reset_wellFormed _ g Hinit).
  - exact (handle_wellFormed e g g' IH Hh).
Qed.

(** In a well-formed game every handler returns, unless the random supply
    ends inside the sampling loop: nothing reads a property of [undefined] and
    the body only ever receives points. *)
Lemma wellFormed_handles (e : event) (g : game.t) :
  wellFormed g ->
  (exists g', handle e g = Ok g') \/ handle e g = Fail OutOfDraws.
Proof.
  intro Hwf. destruct e as [| | | code]; simpl.
  - destruct (wellFormed_has_head g Hwf) as [head Hhead].
    destruct (snake.isOnPoint (game.snake g) (Some head)) as [[|] | e] eqn:Hon;
      [| | discriminate Hon].
    + left. eexists. apply (tick_collides g head Hhead), isOnPoint_true, Hon.
    + apply isOnPoint_false in Hon.
      destruct (food.isOnPoint (game.food g) (Some head)) as [[|] | e] eqn:Hfood.
      * apply food_isOnPoint_true in Hfood.
        destruct (nextStep_defined _ _ Hhead) as [firstPoint [rest [Hb _]]].
        rewrite (tick_eats g firstPoint rest head Hb Hhead Hon Hfood).
        destruct (game.sample _ _ _ _) as [[point draws] | e] eqn:Hsample.
        -- left. eexists. reflexivity.
        -- right. apply sample_fails in Hsample. subst e. reflexivity.
      * apply food_isOnPoint_false in Hfood. left. eexists.
        apply (tick_moves g head Hhead Hon Hfood).
      * unfold food.isOnPoint in Hfood. destruct (game.food g); discriminate Hfood.
  - left. eexists. reflexivity.
  - unfold game.newGameClickHandler, game.reset, game.getRandomFreeCoordinates.
    destruct (game.sample _ _ _ _) as [[point draws] | e] eqn:Hsample.
    + left. eexists. reflexivity.
    + right. apply sample_fails in Hsample. subst e. reflexivity.
  - left. eexists. reflexivity.
Qed.

Lemma started_game_never_throws (e : event) (g : game.t) :
  reachable g ->
  (exists g', handle e g = Ok g') \/ handle e g = Fail OutOfDraws.
Proof. intro H. apply wellFormed_handles, reachable_wellFormed, H. Qed.

(** An eating tick on a board with more cells than the snake and the food
    occupy returns for some values of [Math.random()]. *)
Lemma eating_tick_can_return (g : game.t) (head : Point) :
  snake.getNextStepHeadPoint (game.snake g) = Ok (Some head) ->
  ~ In head (snake.body (game.snake g)) ->
  game.food g = Some head ->
  0 < colsCount (game.config g) -> 0 < rowsCount (game.config g) ->
  bodyLength g + 1 < colsCount (game.config g) * rowsCount (game.config g) ->
  exists rx ry g',
    unitInterval rx /\ unitInterval ry
    /\ game.tickHandler (game.setRandoms g [rx; ry]) = Ok g'.
Proof.
  intros Hhead Hfree Hfood Hc Hr Hroom.
  destruct (findsFree_possible (game.exclude g) _ _ Hc Hr) as [rx [ry [Hrx [Hry Hdraws]]]].
  { unfold game.exclude, food.getCoordinates, snake.getBody. rewrite Hfood.
    unfold bodyLength in Hroom. cbn [List.length]. lia. }
  destruct (tick_eats_returns (game.setRandoms g [rx; ry]) head Hhead Hfree Hfood Hdraws)
    as [point [draws [Htick _]]].
  exists rx, ry. eexists. split; [exact Hrx |]. split; [exact Hry | exact Htick].
Qed.

(** * Further properties of the code *)

(** ** What the handlers keep *)

Lemma valid_ranges (s : Settings) :
  isValid (config.validate s) = true ->
  10 <= rowsCount s <= 30 /\ 10 <= colsCount s <= 30
  /\ 1 <= speed s <= 10 /\ 5 <= winFoodCount s <= 50.
Proof.
  rewrite validate_isValid. unfold inRange.
  rewrite !andb_true_iff, !Z.leb_le. tauto.
Qed.

Lemma removelast_In {A : Type} (a : A) (l : list A) :
  In a (removelast l) -> In a l.
Proof.
  induction l as [| b l IH]; [intros [] |].
  destruct l as [| c l]; [intros [] |].
  change (removelast (b :: c :: l)) with (b :: removelast (c :: l)).
  intros [<- | H]; [left; reflexivity | right; apply IH, H].
Qed.

Lemma nextStep_within (sn : snake.t) (firstPoint : Point) (rest : list Point)
    (head : Point) :
  snake.body sn = firstPoint :: rest ->
  0 <= x firstPoint <= snake.maxX sn ->
  0 <= y firstPoint <= snake.maxY sn ->
  snake.getNextStepHeadPoint sn = Ok (Some head) ->
  0 <= x head <= snake.maxX sn /\ 0 <= y head <= snake.maxY sn.
Proof.
  intros Hb Hx Hy Hhead.
  destruct (nextStep_defined sn head Hhead) as [f [r [_ Hdir]]].
  simpl in Hdir. destruct Hdir as [Hd | [Hd | [Hd | [Hd | []]]]]; symmetry in Hd.
  - rewrite (nextStep_up sn _ _ Hb Hd) in Hhead. injection Hhead as <-. simpl.
    destruct (Z.eqb_spec (y firstPoint) 0); lia.
  - rewrite (nextStep_right sn _ _ Hb Hd) in Hhead. injection Hhead as <-. simpl.
    destruct (Z.eqb_spec (x firstPoint) (snake.maxX sn)); lia.
  - rewrite (nextStep_down sn _ _ Hb Hd) in Hhead. injection Hhead as <-. simpl.
    destruct (Z.eqb_spec (y firstPoint) (snake.maxY sn)); lia.
  - rewrite (nextStep_left sn _ _ Hb Hd) in Hhead. injection Hhead as <-. simpl.
    destruct (Z.eqb_spec (x firstPoint) 0); lia.
Qed.


(** An eating tick that returned: the new food is what the loop drew, off
    the eaten food's cell and off the snake. *)
Lemma tick_eats_inv (g g' : game.t) (head : Point) :
  game.tickHandler g = Ok g' ->
  snake.getNextStepHeadPoint (game.snake g) = Ok (Some head) ->
  ~ In head (snake.body (game.snake g)) ->
  game.food g = Some head ->
  exists firstPoint point draws,
    g' = fed g head point draws
    /\ game.sample (head :: grown (snake.body (game.snake g)) firstPoint)
         (colsCount (game.config g)) (rowsCount (game.config g)) (game.randoms g) =
       Ok (point, draws)
    /\ point <> head /\ ~ In point (snake.body (game.snake g)).
Proof.
  intros Htick Hhead Hfree Hfood.
  destruct (nextStep_defined _ _ Hhead) as [firstPoint [rest [Hb _]]].
  rewrite (tick_eats g firstPoint rest head Hb Hhead Hfree Hfood) in Htick.
  destruct (game.sample _ _ _ _) as [[point draws] | e] eqn:Hsample;
    [| discriminate Htick].
  injection Htick as <-. exists firstPoint, point, draws.
  split; [reflexivity |]. split; [exact Hsample |].
  apply sample_free in Hsample. split.
  - intros ->. apply Hsample. left. reflexivity.
  - intro Hin. apply Hsample. right.
    apply (proj2 (grown_In _ firstPoint rest point Hb)). exact Hin.
Qed.

(** A reset that returned: the game it gives and the draw of its food. *)
Lemma reset_placed (g g' : game.t) :
  game.reset g = Ok g' ->
  exists point draws,
    g' = game.setFood
           (game.setRandoms
              (game.setSnake (game.setScore (game.stop g) 0)
                 (snake.init (game.getStartSnakeBody g) "up"
                    (colsCount (game.config g) - 1) (rowsCount (game.config g) - 1)))
              draws)
           (Some point)
    /\ game.sample
         (match game.food g with
          | Some foodPoint => foodPoint :: game.getStartSnakeBody g
          | None => game.getStartSnakeBody g
          end)
         (colsCount (game.config g)) (rowsCount (game.config g)) (game.randoms g) =
       Ok (point, draws).
Proof.
  intro H. unfold game.reset in H. inv_bind H.
  destruct a as [point placed]. injection H as <-.
  apply getRandomFreeCoordinates_Ok in Hr. destruct Hr as [draws [Hsample ->]].
  exists point, draws. split.
  - unfold food.setCoordinates. rewrite point_eta.
    unfold game.stop, game.getStartSnakeBody, config.getColsCount,
      config.getRowsCount, score.drop.
    cbn [game.tickInterval game.setStatus].
    destruct (game.tickInterval g); reflexivity.
  - rewrite <- Hsample. unfold game.stop, game.exclude.
    cbn [game.tickInterval game.setStatus].
    destruct (game.tickInterval g); reflexivity.
Qed.

Lemma playClickHandler_keeps (g : game.t) :
  game.config (game.playClickHandler g) = game.config g
  /\ game.snake (game.playClickHandler g) = game.snake g
  /\ game.food (game.playClickHandler g) = game.food g
  /\ game.score (game.playClickHandler g) = game.score g
  /\ game.randoms (game.playClickHandler g) = game.randoms g.
Proof.
  unfold game.playClickHandler.
  destruct (status.isPlaying (game.status g)).
  - destruct (stop_frame g) as [Hc [Hs [Hf [Hsc [Hr _]]]]]. repeat split; assumption.
  - destruct (status.isStopped (game.status g)); repeat split; reflexivity.
Qed.

(** A key press leaves the game as it is, or sets the direction that the key
    stands for, which [canSetDirection] accepted while the game was playing. *)
Lemma keyDownHandler_cases (g : game.t) (code : string) :
  game.keyDownHandler g code = g
  \/ (status.isPlaying (game.status g) = true
      /\ game.canSetDirection g (game.getDirectionByCode code) = true
      /\ game.keyDownHandler g code =
         game.setSnake g
           (snake.setDirection (game.snake g) (game.getDirectionByCode code))).
Proof.
  unfold game.keyDownHandler.
  destruct (status.isPlaying (game.status g)); cbn [negb]; [| left; reflexivity].
  destruct (game.canSetDirection g _) eqn:Hcan; [| left; reflexivity].
  right. repeat split. 
Qed.

Lemma canSetDirection_not_reversal (g : game.t) (d : string) :
  game.canSetDirection g d = true ->
  ~ reversal d (snake.lastStepDirection (game.snake g)).
Proof.
  unfold game.canSetDirection, snake.getLastStepDirection, reversal.
  intros Hcan [[-> Hl] | [[-> Hl] | [[-> Hl] | [-> Hl]]]];
    rewrite Hl in Hcan; discriminate Hcan.
Qed.

Lemma reversal_irrefl (d : string) : ~ reversal d d.
Proof.
  unfold reversal. intros [[-> H] | [[-> H] | [[-> H] | [-> H]]]]; discriminate H.
Qed.

Lemma start_onBoard (g : game.t) :
  isValid (config.validate (game.config g)) = true ->
  Forall (onBoard (colsCount (game.config g)) (rowsCount (game.config g)))
    (game.getStartSnakeBody g).
Proof.
  intro Hvalid. apply valid_ranges in Hvalid.
  destruct Hvalid as [Hrows [Hcols _]].
  unfold game.getStartSnakeBody, config.getColsCount, config.getRowsCount.
  constructor; [| constructor]. unfold onBoard. simpl.
  split; (split; [apply Z.div_pos; lia | apply Z.div_lt_upper_bound; lia]).
Qed.

Lemma reset_playable (g g' : game.t) :
  isValid (config.validate (game.config g)) = true ->
  game.reset g = Ok g' -> playable g'.
Proof.
  intros Hvalid Hreset.
  destruct (reset_placed g g' Hreset) as [point [draws [-> Hsample]]].
  destruct (stop_frame g) as [Hc [_ [_ [_ [_ _]]]]].
  split; [split; [discriminate | simpl; tauto] |].
  split.
  { unfold boardInvariant.
    cbn [game.config game.snake game.setFood game.setRandoms game.setSnake
         game.setScore snake.maxX snake.maxY snake.body snake.init].
    rewrite Hc. repeat split; try assumption. apply start_onBoard, Hvalid. }
  split.
  { exists point. split; [reflexivity |].
    cbn [game.snake game.setFood game.setRandoms game.setSnake snake.body snake.init].
    apply sample_free in Hsample. intro Hin. apply Hsample.
    destruct (game.food g); [right |]; exact Hin. }
  split; [apply reversal_irrefl |].
  intros head neck rest Hb. discriminate Hb.
Qed.

Lemma tick_playable (g g' : game.t) :
  playable g -> game.tickHandler g = Ok g' -> playable g'.
Proof.
  intros [[Hbody Hdir] [[Hvalid [HmaxX [HmaxY Hon]]] [[f [Hf Hoff]] [Hrev Hneck]]]] Htick.
  destruct (tick_cases g g' Htick) as [head [Hhead Hcases]].
  destruct (nextStep_defined _ _ Hhead) as [firstPoint [rest [Hb _]]].
  assert (Hheadon : onBoard (colsCount (game.config g)) (rowsCount (game.config g)) head).
  { rewrite Hb in Hon. inversion Hon as [| ? ? [Hx Hy] _].
    assert (Hx0 : 0 <= x firstPoint <= snake.maxX (game.snake g)) by lia.
    assert (Hy0 : 0 <= y firstPoint <= snake.maxY (game.snake g)) by lia.
    destruct (nextStep_within _ _ _ head Hb Hx0 Hy0 Hhead) as [Hx' Hy'].
    unfold onBoard. lia. }
  destruct Hcases as [[_ ->] | [[Hfree [Hfood _]] | [Hfree [Hfood ->]]]].
  - destruct (finish_frame g) as [Hc [Hs [Hfd _]]].
    unfold playable, wellFormed, boardInvariant, foodOffSnake, neckInvariant.
    rewrite Hc, Hs, Hfd.
    repeat split; try assumption. exists f. split; assumption.
  - destruct (tick_eats_inv g g' head Htick Hhead Hfree Hfood)
      as [fp [point [draws [-> [_ [Hne Hpoint]]]]]].
    split; [split; [discriminate | exact Hdir] |].
    split; [repeat split; try assumption; constructor; assumption |].
    split.
    { exists point. split; [reflexivity |]. simpl.
      intros [H | H]; [apply Hne; symmetry; exact H | exact (Hpoint H)]. }
    split; [apply reversal_irrefl |].
    intros head' neck rest' Heq. injection Heq as <- Heq.
    rewrite <- Hhead. cbn [fed game.snake snake.lastStepDirection snake.maxX snake.maxY].
    apply (nextStep_reads (game.snake g) _ neck rest' []); [exact Heq | reflexivity ..].
  - split.
    { split; [| exact Hdir]. unfold stepped.
      cbn [game.snake game.setSnake snake.body].
      intro Hnil. apply (f_equal (@List.length Point)) in Hnil.
      rewrite removelast_cons_length, Hb in Hnil. discriminate Hnil. }
    split.
    { repeat split; try assumption. unfold stepped.
      cbn [game.snake game.setSnake game.config snake.body].
      apply Forall_forall. intros p Hp. apply removelast_In in Hp.
      destruct Hp as [<- | Hp]; [exact Hheadon |].
      exact (proj1 (Forall_forall _ _) Hon p Hp). }
    split.
    { exists f. split; [exact Hf |]. unfold stepped.
      cbn [game.snake game.setSnake snake.body].
      intro Hp. apply removelast_In in Hp.
      destruct Hp as [Heq | Hp]; [| exact (Hoff Hp)].
      apply Hfood. rewrite Hf, Heq. reflexivity. }
    split; [apply reversal_irrefl |].
    intros head' neck rest' Heq. unfold stepped in Heq.
    cbn [game.snake game.setSnake snake.body] in Heq. rewrite Hb in Heq.
    destruct rest as [| second rest].
    + discriminate Heq.
    + change (removelast (head :: firstPoint :: second :: rest))
        with (head :: firstPoint :: removelast (second :: rest)) in Heq.
      injection Heq as <- <- _.
      rewrite <- Hhead.
      cbn [stepped game.setSnake game.snake snake.lastStepDirection snake.maxX snake.maxY].
      apply (nextStep_reads (game.snake g) _ firstPoint (second :: rest) []);
        [exact Hb | reflexivity ..].
Qed.

Lemma playClickHandler_playable (g : game.t) :
  playable g -> playable (game.playClickHandler g).
Proof.
  destruct (playClickHandler_keeps g) as [Hc [Hs [Hf _]]].
  unfold playable, wellFormed, boardInvariant, foodOffSnake, neckInvariant.
  rewrite Hc, Hs, Hf. tauto.
Qed.

Lemma keyDownHandler_playable (g : game.t) (code : string) :
  playable g -> playable (game.keyDownHandler g code).
Proof.
  intro Hp. destruct (keyDownHandler_cases g code) as [-> | [_ [Hcan ->]]];
    [exact Hp |].
  destruct Hp as [[Hbody _] [Hboard [Hfood [_ Hneck]]]].
  split; [split; [exact Hbody | exact (canSetDirection_direction g _ Hcan)] |].
  split; [exact Hboard |]. split; [exact Hfood |].
  split; [exact (canSetDirection_not_reversal g _ Hcan) | exact Hneck].
Qed.

Lemma handle_playable (e : event) (g g' : game.t) :
  playable g -> handle e g = Ok g' -> playable g'.
Proof.
  intros Hp Hh. destruct e as [| | | code]; simpl in Hh.
  - exact (tick_playable g g' Hp Hh).
  - injection Hh as <-. apply playClickHandler_playable, Hp.
  - apply (reset_playable g g'); [apply Hp | exact Hh].
  - injection Hh as <-. apply keyDownHandler_playable, Hp.
Qed.

Lemma reachable_playable (g : game.t) : reachable g -> playable g.
Proof.
  induction 1 as [g0 g userSettings _ Hvalid Hinit | g g' _ IH [e _ Hh]].
  - unfold game.init in Hinit. cbn [game.config game.setConfig] in Hinit.
    rewrite Hvalid in Hinit. apply (reset_playable _ g) in Hinit; [exact Hinit |].
    exact Hvalid.
  - exact (handle_playable e g g' IH Hh).
Qed.

(** A step in a direction that does not reverse the last one does not lead
    back onto the segment the head came from, on a board of three or more
    columns and rows. *)
Lemma no_turn_back (maxX maxY : Z) (neck head next : Point) (rest : list Point)
    (last d : string) :
  2 <= maxX -> 2 <= maxY ->
  0 <= x neck <= maxX -> 0 <= y neck <= maxY ->
  snake.getNextStepHeadPoint (snake.init [neck] last maxX maxY) = Ok (Some head) ->
  snake.getNextStepHeadPoint
    {| snake.body := head :: rest; snake.direction := d;
       snake.lastStepDirection := last; snake.maxX := maxX; snake.maxY := maxY |} =
    Ok (Some next) ->
  ~ reversal d last ->
  next <> neck.
Proof.
  intros HX HY Hx Hy Hhead Hnext Hrev.
  destruct (nextStep_defined _ _ Hhead) as [_ [_ [_ Hlast]]].
  destruct (nextStep_defined _ _ Hnext) as [_ [_ [_ Hd]]].
  cbn [snake.init snake.direction] in Hlast, Hd.
  simpl in Hlast, Hd.
  destruct Hlast as [<- | [<- | [<- | [<- | []]]]];
    destruct Hd as [<- | [<- | [<- | [<- | []]]]];
    try (exfalso; apply Hrev; unfold reversal; tauto);
    unfold snake.getNextStepHeadPoint in Hhead, Hnext;
    cbn in Hhead, Hnext;
    injection Hhead as Hhead; subst head; injection Hnext as Hnext; subst next;
    intro Heq; apply (f_equal x) in Heq as Hex; apply (f_equal y) in Heq as Hey;
    cbn in Hex, Hey;
    repeat match type of Hex with
           | context [Z.eqb ?a ?b] => destruct (Z.eqb_spec a b)
           end;
    repeat match type of Hey with
           | context [Z.eqb ?a ?b] => destruct (Z.eqb_spec a b)
           end;
    cbn in *; lia.
Qed.

Lemma handle_config (e : event) (g g' : game.t) :
  handle e g = Ok g' -> game.config g' = game.config g.
Proof.
  destruct e as [| | | code]; simpl; intro Hh.
  - destruct (tick_cases g g' Hh) as [head [_ Hcases]].
    destruct Hcases as [[_ ->] | [[_ [_ [point [draws ->]]]] | [_ [_ ->]]]];
      [apply (finish_frame g) | reflexivity | reflexivity].
  - injection Hh as <-. apply (playClickHandler_keeps g).
  - destruct (reset_placed g g' Hh) as [point [draws [-> _]]].
    apply (stop_frame g).
  - injection Hh as <-.
    destruct (keyDownHandler_cases g code) as [-> | [_ [_ ->]]]; reflexivity.
Qed.



Lemma reachable_score (g : game.t) :
  reachable g -> game.score g = bodyLength g - 1.
Proof.
  induction 1 as [g0 g userSettings _ Hvalid Hinit | g g' _ IH [e _ Hh]].
  - unfold game.init in Hinit. cbn [game.config game.setConfig] in Hinit.
    rewrite Hvalid in Hinit.
    destruct (reset_score_length _ g Hinit) as [-> ->]. reflexivity.
  - pose proof (handle_score_length e g g' Hh) as Hev.
    destruct e as [| | | code].
    + destruct (eatsFood_dec g) as [Heats | Hno];
        [destruct (proj1 Hev Heats) | destruct (proj2 Hev Hno)]; lia.
    + destruct Hev. lia.
    + destruct Hev as [-> ->]. reflexivity.
    + destruct Hev. lia.
Qed.

Lemma afterFirstFood_reachable : reachable afterFirstFood.
Proof.
  apply reachable_step with (g := game.play started).
  - apply reachable_step with (g := started); [exact started_reachable |].
    apply (step_event _ _ PlayClick); [exact I | reflexivity].
  - apply (step_event _ _ Tick); [simpl; discriminate | reflexivity].
Qed.

(** ** Invariants of a started game *)

(** X1.  In every state of a started game the settings are valid, the
    snake's bounds are the last column and row of the board, every segment of
    the body lies on the board, and so does the next head point. *)
Theorem started_snake_stays_on_board :
  forall g : game.t,
    reachable g ->
    isValid (config.validate (game.config g)) = true
    /\ snake.maxX (game.snake g) = config.getColsCount (game.config g) - 1
    /\ snake.maxY (game.snake g) = config.getRowsCount (game.config g) - 1
    /\ Forall (onBoard (colsCount (game.config g)) (rowsCount (game.config g)))
         (snake.getBody (game.snake g))
    /\ exists head,
         snake.getNextStepHeadPoint (game.snake g) = Ok (Some head)
         /\ onBoard (colsCount (game.config g)) (rowsCount (game.config g)) head.
Proof.
  intros g Hreach.
  destruct (reachable_playable g Hreach) as [Hwf [[Hvalid [HmaxX [HmaxY Hon]]] _]].
  repeat (split; [assumption |]).
  destruct (wellFormed_has_head g Hwf) as [head Hhead].
  exists head. split; [exact Hhead |].
  destruct (nextStep_defined _ _ Hhead) as [firstPoint [rest [Hb _]]].
  rewrite Hb in Hon. inversion Hon as [| ? ? [Hx Hy] _].
  assert (Hx0 : 0 <= x firstPoint <= snake.maxX (game.snake g)) by lia.
  assert (Hy0 : 0 <= y firstPoint <= snake.maxY (game.snake g)) by lia.
  destruct (nextStep_within _ _ _ head Hb Hx0 Hy0 Hhead) as [Hx' Hy'].
  unfold onBoard. lia.
Qed.

Lemma started_snake_stays_on_board_witness :
  reachable afterFirstFood
  /\ Forall (onBoard 21 21) (snake.getBody (game.snake afterFirstFood)).
Proof.
  split; [exact afterFirstFood_reachable |].
  exact (proj1 (proj2 (proj2 (proj2
           (started_snake_stays_on_board afterFirstFood afterFirstFood_reachable))))).
Defined.

(** X2.  In every state of a started game the food is placed and lies on no
    segment of the snake. *)
Theorem started_food_never_on_snake :
  forall g : game.t,
    reachable g ->
    exists foodPoint,
      food.getCoordinates (game.food g) = Some foodPoint
      /\ snake.isOnPoint (game.snake g) (Some foodPoint) = Ok false.
Proof.
  intros g Hreach.
  destruct (reachable_playable g Hreach) as [_ [_ [[f [Hf Hoff]] _]]].
  exists f. split; [exact Hf | apply isOnPoint_false, Hoff].
Qed.

Lemma started_food_never_on_snake_witness :
  reachable afterFirstFood
  /\ exists foodPoint,
       food.getCoordinates (game.food afterFirstFood) = Some foodPoint
       /\ snake.isOnPoint (game.snake afterFirstFood) (Some foodPoint) = Ok false.
Proof.
  split; [exact afterFirstFood_reachable |].
  exact (started_food_never_on_snake afterFirstFood afterFirstFood_reachable).
Defined.

(** X3.  In every state of a started game the direction is one of up, right,
    down, left and is not the reversal of the direction of the last step,
    whatever keys were pressed since. *)
Theorem started_direction_never_reversed :
  forall g : game.t,
    reachable g ->
    In (snake.direction (game.snake g)) ["up"; "right"; "down"; "left"]
    /\ ~ reversal (snake.direction (game.snake g))
           (snake.getLastStepDirection (game.snake g)).
Proof.
  intros g Hreach.
  destruct (reachable_playable g Hreach) as [[_ Hdir] [_ [_ [Hrev _]]]].
  split; assumption.
Qed.

Lemma afterThreeKeys_reachable : reachable afterThreeKeys.
Proof.
  assert (Hkey : forall g code, reachable g -> reachable (game.keyDownHandler g code)).
  { intros g code Hg. apply reachable_step with (g := g); [exact Hg |].
    apply (step_event _ _ (KeyDown code)); [exact I | reflexivity]. }
  unfold afterThreeKeys. do 3 apply Hkey.
  apply reachable_step with (g := started); [exact started_reachable |].
  apply (step_event _ _ PlayClick); [exact I | reflexivity].
Qed.

Lemma started_direction_never_reversed_witness :
  reachable afterThreeKeys
  /\ snake.direction (game.snake afterThreeKeys) = "left"
  /\ ~ reversal (snake.direction (game.snake afterThreeKeys))
         (snake.getLastStepDirection (game.snake afterThreeKeys)).
Proof.
  split; [exact afterThreeKeys_reachable |]. split; [reflexivity |].
  exact (proj2 (started_direction_never_reversed afterThreeKeys
                  afterThreeKeys_reachable)).
Defined.

(** X4.  In a started game a snake of two or more segments never steps onto
    its second segment: the next head point exists and differs from it. *)
Theorem started_snake_never_steps_on_its_neck :
  forall g : game.t,
    reachable g ->
    forall head neck rest,
      snake.getBody (game.snake g) = head :: neck :: rest ->
      exists next,
        snake.getNextStepHeadPoint (game.snake g) = Ok (Some next)
        /\ next <> neck.
Proof.
  intros g Hreach head neck rest Hb.
  destruct (reachable_playable g Hreach)
    as [Hwf [[Hvalid [HmaxX [HmaxY Hon]]] [_ [Hrev Hneck]]]].
  destruct (wellFormed_has_head g Hwf) as [next Hnext].
  exists next. split; [exact Hnext |].
  unfold snake.getBody in Hb.
  apply valid_ranges in Hvalid. destruct Hvalid as [Hrows [Hcols _]].
  rewrite Hb in Hon. inversion Hon as [| ? ? _ Hon']. inversion Hon' as [| ? ? [Hx Hy] _].
  apply (no_turn_back (snake.maxX (game.snake g)) (snake.maxY (game.snake g))
           neck head next (neck :: rest)
           (snake.lastStepDirection (game.snake g))
           (snake.direction (game.snake g))); try lia.
  - exact (Hneck head neck rest Hb).
  - rewrite <- Hnext, <- Hb. destruct (game.snake g). reflexivity.
  - exact Hrev.
Qed.

Lemma started_snake_never_steps_on_its_neck_witness :
  reachable afterFirstFood
  /\ exists next,
       snake.getNextStepHeadPoint (game.snake afterFirstFood) = Ok (Some next)
       /\ next <> {| x := 10; y := 10 |}.
Proof.
  split; [exact afterFirstFood_reachable |].
  exact (started_snake_never_steps_on_its_neck afterFirstFood afterFirstFood_reachable
           {| x := 10; y := 9 |} {| x := 10; y := 10 |} [] eq_refl).
Defined.

(** X5.  No event changes the settings: in every state a game gets to by
    handling events they are what they were. *)
Theorem settings_fixed_while_running :
  forall g g' : game.t,
    steps g g' -> game.config g' = game.config g.
Proof.
  intros g g' Hsteps. induction Hsteps as [| g1 g2 _ IH [e _ Hh]]; [reflexivity |].
  rewrite (handle_config e g1 g2 Hh). exact IH.
Qed.

Lemma settings_fixed_while_running_witness :
  steps started afterFirstFood
  /\ game.config afterFirstFood = game.config started.
Proof.
  split; [exact afterFirstFood_steps |].
  exact (settings_fixed_while_running started afterFirstFood afterFirstFood_steps).
Defined.






(** X7.  In a started game that is playing, a tick that eats adds 1 to the
    score, and the game is finished after it exactly when the new score has
    reached [winFoodCount]. *)
Theorem game_is_won_when_score_reaches_winFoodCount :
  forall g g' : game.t,
    reachable g ->
    status.isPlaying (game.status g) = true ->
    eatsFood g ->
    game.tickHandler g = Ok g' ->
    game.score g' = game.score g + 1
    /\ (game.status g' = "finished" <->
          game.score g' >= config.getWinFoodCount (game.config g)).
Proof.
  intros g g' Hreach Hplaying [head [Hhead [Hcan Hfood]]] Htick.
  apply (canMakeStep_true g head Hhead) in Hcan.
  apply food_isOnPoint_true in Hfood.
  destruct (tick_eats_inv g g' head Htick Hhead Hcan Hfood)
    as [fp [point [draws [-> _]]]].
  pose proof (reachable_score g Hreach) as Hscore. unfold bodyLength in Hscore.
  unfold status.isPlaying in Hplaying. apply String.eqb_eq in Hplaying.
  split; [reflexivity |].
  unfold fed, config.getWinFoodCount. cbn [game.status game.score].
  destruct (Z.gtb_spec (Z.of_nat (List.length (snake.body (game.snake g)) + 1))
              (winFoodCount (game.config g))) as [Hgt | Hle].
  - split; [lia | reflexivity].
  - rewrite Hplaying. split; [discriminate | lia].
Qed.

Lemma game_is_won_when_score_reaches_winFoodCount_witness :
  reachable (game.play started)
  /\ eatsFood (game.play started)
  /\ game.tickHandler (game.play started) = Ok afterFirstFood
  /\ game.score afterFirstFood = game.score (game.play started) + 1.
Proof.
  assert (Hreach : reachable (game.play started)).
  { apply reachable_step with (g := started); [exact started_reachable |].
    apply (step_event _ _ PlayClick); [exact I | reflexivity]. }
  assert (Heats : eatsFood (game.play started)).
  { exists {| x := 10; y := 9 |}. repeat split. }
  assert (Htick : game.tickHandler (game.play started) = Ok afterFirstFood)
    by reflexivity.
  repeat (split; [assumption |]).
  exact (proj1 (game_is_won_when_score_reaches_winFoodCount _ _ Hreach eq_refl
                  Heats Htick)).
Defined.

(** ** The snake's methods *)

Lemma removelast_cons {A : Type} (a : A) (l : list A) :
  l <> [] -> removelast (a :: l) = a :: removelast l.
Proof. destruct l; [intro H; contradiction H; reflexivity | reflexivity]. Qed.





(** X10.  Growing and then stepping extends the snake at the head: when
    [growUp] returns, the grown body is one longer and ends in two copies of
    the old last segment, and [makeStep] of the grown snake gives the next
    head point of the old snake followed by the whole old body, so that no
    segment has left its cell. *)
Theorem growUp_then_makeStep_extends_at_head :
  forall (sn grownSnake : snake.t) (head : Point),
    snake.growUp sn = Ok grownSnake ->
    snake.getNextStepHeadPoint sn = Ok (Some head) ->
    List.length (snake.body grownSnake) = S (List.length (snake.body sn))
    /\ (exists front lastPoint,
          snake.body sn = front ++ [lastPoint]
          /\ snake.body grownSnake = front ++ [lastPoint; lastPoint])
    /\ exists sn',
         snake.makeStep grownSnake = Ok sn'
         /\ snake.body sn' = head :: snake.body sn.
Proof.
  intros sn grownSnake head Hgrow Hhead.
  destruct (nextStep_defined _ _ Hhead) as [firstPoint [rest [Hb _]]].
  rewrite (growUp_grown _ _ _ Hb) in Hgrow. injection Hgrow as <-.
  unfold grown. cbn [snake.setBody snake.body].
  split; [rewrite length_app; simpl; lia |]. split.
  - destruct (exists_last (l := snake.body sn)) as [front [lastPoint Hl]];
      [rewrite Hb; discriminate |].
    exists front, lastPoint. split; [exact Hl |].
    rewrite Hl, last_last, <- app_assoc. reflexivity.
  - eexists. split; [apply (makeStep_grown sn firstPoint rest head Hb Hhead) |].
    reflexivity.
Qed.

Lemma growUp_then_makeStep_extends_at_head_witness :
  snake.growUp atRightEdge =
    Ok (snake.init [ {| x := 20; y := 7 |}; {| x := 19; y := 7 |}; {| x := 19; y := 7 |} ]
          "right" 20 20)
  /\ exists sn',
       snake.makeStep
         (snake.init [ {| x := 20; y := 7 |}; {| x := 19; y := 7 |}; {| x := 19; y := 7 |} ]
            "right" 20 20) = Ok sn'
       /\ snake.body sn' = {| x := 0; y := 7 |} :: snake.body atRightEdge.
Proof.
  split; [reflexivity |].
  exact (proj2 (proj2 (growUp_then_makeStep_extends_at_head atRightEdge _
                         {| x := 0; y := 7 |} eq_refl eq_refl))).
Defined.

(** X11.  On the board a step is undone by a step in the reverse direction:
    from a head within the bounds, the next head point in direction [d] is
    defined, and from there the next head point in the reversal of [d] is the
    head again, also across an edge. *)
Theorem reverse_step_leads_back :
  forall (sn : snake.t) (firstPoint : Point) (rest : list Point) (back : string),
    snake.body sn = firstPoint :: rest ->
    0 <= x firstPoint <= snake.maxX sn ->
    0 <= y firstPoint <= snake.maxY sn ->
    reversal back (snake.direction sn) ->
    exists head,
      snake.getNextStepHeadPoint sn = Ok (Some head)
      /\ forall rest',
           snake.getNextStepHeadPoint
             (snake.init (head :: rest') back (snake.maxX sn) (snake.maxY sn)) =
           Ok (Some firstPoint).
Proof.
  intros sn firstPoint rest back Hb Hx Hy Hrev.
  destruct firstPoint as [fx fy]. simpl in Hx, Hy.
  unfold snake.getNextStepHeadPoint. rewrite Hb.
  destruct Hrev as [[-> Hd] | [[-> Hd] | [[-> Hd] | [-> Hd]]]]; rewrite Hd;
    cbn;
    repeat match goal with
           | |- context [Z.eqb fx ?b] => destruct (Z.eqb_spec fx b); cbn
           | |- context [Z.eqb fy ?b] => destruct (Z.eqb_spec fy b); cbn
           end;
    eexists; (split; [reflexivity |]); intro rest'; cbn;
    repeat match goal with
           | |- context [Z.eqb ?a ?b] => destruct (Z.eqb_spec a b); cbn
           end;
    try (do 2 f_equal; f_equal; lia); lia.
Qed.

Lemma reverse_step_leads_back_witness :
  snake.getNextStepHeadPoint atRightEdge = Ok (Some {| x := 0; y := 7 |})
  /\ snake.getNextStepHeadPoint (snake.init [ {| x := 0; y := 7 |} ] "left" 20 20) =
     Ok (Some {| x := 20; y := 7 |}).
Proof.
  assert (Hrev : reversal "left" (snake.direction atRightEdge))
    by (unfold reversal; simpl; tauto).
  assert (Hx : 0 <= x {| x := 20; y := 7 |} <= snake.maxX atRightEdge)
    by (simpl; lia).
  assert (Hy : 0 <= y {| x := 20; y := 7 |} <= snake.maxY atRightEdge)
    by (simpl; lia).
  destruct (reverse_step_leads_back atRightEdge {| x := 20; y := 7 |}
              [ {| x := 19; y := 7 |} ] "left" eq_refl Hx Hy Hrev)
    as [head [Hhead Hback]].
  assert (Heq : head = {| x := 0; y := 7 |}).
  { cbv in Hhead. injection Hhead as Hhead. symmetry. exact Hhead. }
  subst head. split; [exact Hhead | exact (Hback [])].
Defined.

(** ** Keys, clicks and the status *)

(** X12.  [getDirectionByCode] gives up for the codes KeyW and ArrowUp and for
    no other, right for KeyD and ArrowRight, down for KeyS and ArrowDown, left
    for KeyA and ArrowLeft, and the empty string for every code that is none
    of these eight. *)
Theorem getDirectionByCode_reads_eight_codes :
  forall code : string,
    (game.getDirectionByCode code = "up" <-> code = "KeyW" \/ code = "ArrowUp")
    /\ (game.getDirectionByCode code = "right" <->
          code = "KeyD" \/ code = "ArrowRight")
    /\ (game.getDirectionByCode code = "down" <->
          code = "KeyS" \/ code = "ArrowDown")
    /\ (game.getDirectionByCode code = "left" <->
          code = "KeyA" \/ code = "ArrowLeft")
    /\ (game.getDirectionByCode code = "" <->
          ~ In code ["KeyW"; "ArrowUp"; "KeyD"; "ArrowRight";
                     "KeyS"; "ArrowDown"; "KeyA"; "ArrowLeft"]).
Proof.
  intro code. unfold game.getDirectionByCode.
  destruct (String.eqb_spec code "KeyW") as [-> | H1];
    [cbn; intuition congruence |].
  destruct (String.eqb_spec code "ArrowUp") as [-> | H2];
    [cbn; intuition congruence |].
  destruct (String.eqb_spec code "KeyD") as [-> | H3];
    [cbn; intuition congruence |].
  destruct (String.eqb_spec code "ArrowRight") as [-> | H4];
    [cbn; intuition congruence |].
  destruct (String.eqb_spec code "KeyS") as [-> | H5];
    [cbn; intuition congruence |].
  destruct (String.eqb_spec code "ArrowDown") as [-> | H6];
    [cbn; intuition congruence |].
  destruct (String.eqb_spec code "KeyA") as [-> | H7];
    [cbn; intuition congruence |].
  destruct (String.eqb_spec code "ArrowLeft") as [-> | H8];
    [cbn; intuition congruence |].
  cbn. intuition congruence.
Qed.

Lemma canSetDirection_true_iff (g : game.t) (d : string) :
  game.canSetDirection g d = true <->
  In d ["up"; "right"; "down"; "left"]
  /\ ~ reversal d (snake.lastStepDirection (game.snake g)).
Proof.
  split.
  - intro H. split; [exact (canSetDirection_direction g d H)
                    | exact (canSetDirection_not_reversal g d H)].
  - intros [Hd Hrev]. unfold game.canSetDirection, snake.getLastStepDirection.
    unfold reversal in Hrev. simpl in Hd.
    destruct Hd as [<- | [<- | [<- | [<- | []]]]]; cbn; rewrite ?orb_false_r;
      match goal with
      | |- negb (String.eqb ?l ?s) = true =>
          destruct (String.eqb_spec l s) as [Heq | _]; [| reflexivity]
      end; exfalso; apply Hrev; tauto.
Qed.

(** X13.  A key press changes nothing but the snake's direction, and that
    only while the game is playing, only to the direction the key stands for,
    and only if that is one of the four and not the reversal of the last
    step's: then it is set, whatever the current direction; in every other
    case (not playing, a key that is none of the eight, a reversal) the game
    is exactly as it was. *)
Theorem keyDownHandler_sets_only_an_allowed_direction :
  forall (g : game.t) (code : string),
    (status.isPlaying (game.status g) = true
     /\ In (game.getDirectionByCode code) ["up"; "right"; "down"; "left"]
     /\ ~ reversal (game.getDirectionByCode code)
            (snake.getLastStepDirection (game.snake g)) ->
     game.keyDownHandler g code =
       game.setSnake g
         (snake.setDirection (game.snake g) (game.getDirectionByCode code)))
    /\ (status.isPlaying (game.status g) = false
        \/ game.getDirectionByCode code = ""
        \/ reversal (game.getDirectionByCode code)
             (snake.getLastStepDirection (game.snake g)) ->
        game.keyDownHandler g code = g)
    /\ game.config (game.keyDownHandler g code) = game.config g
    /\ game.food (game.keyDownHandler g code) = game.food g
    /\ game.status (game.keyDownHandler g code) = game.status g
    /\ game.score (game.keyDownHandler g code) = game.score g
    /\ game.tickInterval (game.keyDownHandler g code) = game.tickInterval g
    /\ game.intervals (game.keyDownHandler g code) = game.intervals g
    /\ game.randoms (game.keyDownHandler g code) = game.randoms g
    /\ snake.body (game.snake (game.keyDownHandler g code)) = snake.body (game.snake g)
    /\ snake.lastStepDirection (game.snake (game.keyDownHandler g code)) =
       snake.lastStepDirection (game.snake g)
    /\ snake.maxX (game.snake (game.keyDownHandler g code)) = snake.maxX (game.snake g)
    /\ snake.maxY (game.snake (game.keyDownHandler g code)) = snake.maxY (game.snake g).
Proof.
  intros g code.
  pose proof (canSetDirection_true_iff g (game.getDirectionByCode code)) as Hcan.
  unfold snake.getLastStepDirection.
  split; [| split].
  - intros [Hplaying Hallowed]. apply Hcan in Hallowed.
    unfold game.keyDownHandler. rewrite Hplaying, Hallowed. reflexivity.
  - intros Hno. unfold game.keyDownHandler.
    destruct (status.isPlaying (game.status g)); [| reflexivity]. cbn [negb].
    destruct (game.canSetDirection g (game.getDirectionByCode code)) eqn:Hc;
      [| reflexivity].
    exfalso. apply canSetDirection_true_iff in Hc. destruct Hc as [Hd Hrev].
    destruct Hno as [H | [H | H]]; [discriminate H | | exact (Hrev H)].
    rewrite H in Hd. simpl in Hd. intuition discriminate.
  - destruct (keyDownHandler_cases g code) as [-> | [_ [_ ->]]];
      repeat split; reflexivity.
Qed.

(** X14.  Pausing and resuming.  From a stopped state of a started game two
    clicks on the play button lead to a stopped state again, with no interval
    live, and through a playing state with exactly one; from a playing state
    they lead to a playing state with exactly one live interval, through a
    stopped one with none.  Neither click touches the snake, the food, the
    score, the settings or the random supply. *)
Theorem play_button_pauses_and_resumes :
  forall g : game.t,
    reachable g ->
    (status.isStopped (game.status g) = true ->
       game.status (game.playClickHandler g) = "playing"
       /\ List.length (game.intervals (game.playClickHandler g)) = 1%nat
       /\ game.status (game.playClickHandler (game.playClickHandler g)) = "stopped"
       /\ game.intervals (game.playClickHandler (game.playClickHandler g)) = [])
    /\ (status.isPlaying (game.status g) = true ->
          game.status (game.playClickHandler g) = "stopped"
          /\ game.intervals (game.playClickHandler g) = []
          /\ game.status (game.playClickHandler (game.playClickHandler g)) = "playing"
          /\ List.length
               (game.intervals (game.playClickHandler (game.playClickHandler g))) =
             1%nat)
    /\ game.snake (game.playClickHandler (game.playClickHandler g)) = game.snake g
    /\ game.food (game.playClickHandler (game.playClickHandler g)) = game.food g
    /\ game.score (game.playClickHandler (game.playClickHandler g)) = game.score g
    /\ game.config (game.playClickHandler (game.playClickHandler g)) = game.config g
    /\ game.randoms (game.playClickHandler (game.playClickHandler g)) = game.randoms g.
Proof.
  intros g Hreach.
  assert (Hreach' : reachable (game.playClickHandler g)).
  { apply reachable_step with (g := g); [exact Hreach |].
    apply (step_event _ _ PlayClick); [exact I | reflexivity]. }
  assert (Hreach'' : reachable (game.playClickHandler (game.playClickHandler g))).
  { apply reachable_step with (g := game.playClickHandler g); [exact Hreach' |].
    apply (step_event _ _ PlayClick); [exact I | reflexivity]. }
  assert (Hlive : forall h, reachable h -> game.status h = "playing" ->
                            List.length (game.intervals h) = 1%nat).
  { intros h Hh Hst. destruct (reachable_invariant h Hh) as [[_ [id [_ ->]]] | [Hne _]];
      [reflexivity | contradiction]. }
  assert (Hnone : forall h, reachable h -> game.status h = "stopped" ->
                            game.intervals h = []).
  { intros h Hh Hst. destruct (reachable_invariant h Hh) as [[Hp _] | [_ Hn]];
      [rewrite Hst in Hp; discriminate Hp | exact Hn]. }
  assert (Hplay : forall h, status.isStopped (game.status h) = true ->
                            game.status (game.playClickHandler h) = "playing").
  { intros h Hst. unfold game.playClickHandler, status.isPlaying, status.isStopped in *.
    apply String.eqb_eq in Hst. rewrite Hst. reflexivity. }
  assert (Hstop : forall h, status.isPlaying (game.status h) = true ->
                            game.status (game.playClickHandler h) = "stopped").
  { intros h Hst. unfold game.playClickHandler. rewrite Hst. apply (stop_frame h). }
  split; [| split].
  - intro Hst. pose proof (Hplay g Hst) as H1.
    assert (H2 : game.status (game.playClickHandler (game.playClickHandler g)) =
                 "stopped").
    { apply Hstop. unfold status.isPlaying. rewrite H1. reflexivity. }
    split; [exact H1 |]. split; [exact (Hlive _ Hreach' H1) |].
    split; [exact H2 | exact (Hnone _ Hreach'' H2)].
  - intro Hst. pose proof (Hstop g Hst) as H1.
    assert (H2 : game.status (game.playClickHandler (game.playClickHandler g)) =
                 "playing").
    { apply Hplay. unfold status.isStopped. rewrite H1. reflexivity. }
    split; [exact H1 |]. split; [exact (Hnone _ Hreach' H1) |].
    split; [exact H2 | exact (Hlive _ Hreach'' H2)].
  - destruct (playClickHandler_keeps g) as [Hc [Hs [Hf [Hsc Hr]]]].
    destruct (playClickHandler_keeps (game.playClickHandler g))
      as [Hc' [Hs' [Hf' [Hsc' Hr']]]].
    rewrite Hc', Hs', Hf', Hsc', Hr'. repeat split; assumption.
Qed.

Lemma play_button_pauses_and_resumes_witness :
  reachable started
  /\ status.isStopped (game.status started) = true
  /\ game.status (game.playClickHandler started) = "playing"
  /\ game.intervals (game.playClickHandler (game.playClickHandler started)) = [].
Proof.
  split; [exact started_reachable |]. split; [reflexivity |].
  destruct (proj1 (play_button_pauses_and_resumes started started_reachable) eq_refl)
    as [H1 [_ [_ H4]]].
  split; [exact H1 | exact H4].
Defined.

(** X15.  Outside the playing status a started game is inert: no tick can
    come, for no interval is live, and no key changes anything; in the
    finished status a click on the play button changes nothing either, so
    that only a new game leads out of it, into the stopped status. *)
Theorem game_outside_playing_is_inert :
  forall g : game.t,
    reachable g ->
    status.isPlaying (game.status g) = false ->
    ~ enabled Tick g
    /\ (forall code, handle (KeyDown code) g = Ok g)
    /\ (game.status g = "finished" ->
          handle PlayClick g = Ok g
          /\ forall g', handle NewGameClick g = Ok g' -> game.status g' = "stopped").
Proof.
  intros g Hreach Hnot.
  split; [| split].
  - simpl. intro Hlive. apply Hlive.
    destruct (reachable_invariant g Hreach) as [[Hp _] | [_ Hnone]]; [| exact Hnone].
    unfold status.isPlaying in Hnot. rewrite Hp in Hnot. discriminate Hnot.
  - intro code. simpl. unfold game.keyDownHandler. rewrite Hnot. reflexivity.
  - intro Hfin. split.
    + simpl. unfold game.playClickHandler, status.isPlaying, status.isStopped.
      rewrite Hfin. reflexivity.
    + intros g' Hnew. simpl in Hnew.
      destruct (reset_placed g g' Hnew) as [point [draws [-> _]]].
      apply (stop_frame g).
Qed.

Lemma game_outside_playing_is_inert_witness :
  reachable started
  /\ status.isPlaying (game.status started) = false
  /\ ~ enabled Tick started
  /\ handle (KeyDown "KeyD") started = Ok started.
Proof.
  split; [exact started_reachable |]. split; [reflexivity |].
  destruct (game_outside_playing_is_inert started started_reachable eq_refl)
    as [Htick [Hkeys _]].
  split; [exact Htick | exact (Hkeys "KeyD")].
Defined.

(** ** reset and init *)

(** X16.  Whenever [reset] returns, from whatever state: the status is
    stopped, the score 0, the snake is one segment at the centre of the board
    heading up with up as its last step and the last column and row as its
    bounds, the settings are untouched, the interval stored in [tickInterval]
    is not live, and the food is placed on a cell that is neither the centre
    nor the cell of the food before. *)
Theorem reset_puts_game_to_start :
  forall g g' : game.t,
    game.reset g = Ok g' ->
    game.status g' = "stopped"
    /\ game.score g' = 0
    /\ snake.body (game.snake g') =
         [ {| x := colsCount (game.config g) / 2; y := rowsCount (game.config g) / 2 |} ]
    /\ snake.direction (game.snake g') = "up"
    /\ snake.lastStepDirection (game.snake g') = "up"
    /\ snake.maxX (game.snake g') = colsCount (game.config g) - 1
    /\ snake.maxY (game.snake g') = rowsCount (game.config g) - 1
    /\ game.config g' = game.config g
    /\ (forall id, game.tickInterval g = Some id -> ~ In id (game.intervals g'))
    /\ exists foodPoint,
         game.food g' = Some foodPoint
         /\ foodPoint <>
              {| x := colsCount (game.config g) / 2; y := rowsCount (game.config g) / 2 |}
         /\ game.food g <> Some foodPoint.
Proof.
  intros g g' Hreset.
  destruct (reset_placed g g' Hreset) as [point [draws [-> Hsample]]].
  destruct (stop_frame g) as [Hc [_ [_ [_ [_ Hst]]]]].
  cbn [game.status game.score game.snake game.config game.intervals game.food
       game.setFood game.setRandoms game.setSnake game.setScore
       snake.body snake.direction snake.lastStepDirection snake.maxX snake.maxY
       snake.init].
  repeat (split; [first [assumption | reflexivity] |]).
  split.
  - intros id Hid. unfold game.stop. cbn [game.tickInterval game.setStatus].
    rewrite Hid. simpl. rewrite filter_In, Nat.eqb_refl. intros [_ H]. discriminate H.
  - exists point. split; [reflexivity |].
    apply sample_free in Hsample. unfold game.getStartSnakeBody in Hsample.
    unfold config.getColsCount, config.getRowsCount in Hsample.
    split.
    + intros ->. apply Hsample. destruct (game.food g); simpl; tauto.
    + intro Hfood. rewrite Hfood in Hsample. apply Hsample. left. reflexivity.
Qed.

Lemma reset_puts_game_to_start_witness :
  game.reset beforeNewGame = Ok restarted
  /\ game.status restarted = "stopped"
  /\ game.score restarted = 0
  /\ exists foodPoint,
       game.food restarted = Some foodPoint
       /\ game.food beforeNewGame <> Some foodPoint.
Proof.
  assert (Hreset : game.reset beforeNewGame = Ok restarted) by reflexivity.
  split; [exact Hreset |].
  destruct (reset_puts_game_to_start beforeNewGame restarted Hreset)
    as [Hst [Hsc [_ [_ [_ [_ [_ [_ [_ [foodPoint [Hfood [_ Hold]]]]]]]]]]]].
  split; [exact Hst |]. split; [exact Hsc |].
  exists foodPoint. split; [exact Hfood | exact Hold].
Defined.

(** X17.  [game.init] merges the user's settings into the stored ones before
    it validates them.  If a merged setting is outside its range the game is
    not started: the merged settings stay stored and nothing else changes, in
    particular neither the status nor the intervals.  If all four are in
    range, [init] is [reset] on the merged settings with the score dropped,
    and when it returns the game is stopped with score 0, the merged settings
    and a snake of one segment. *)
Theorem init_starts_only_with_valid_settings :
  forall (g : game.t) (userSettings : UserSettings),
    (inRange 10 30 (rowsCount (config.init (game.config g) userSettings))
     && inRange 10 30 (colsCount (config.init (game.config g) userSettings))
     && inRange 1 10 (speed (config.init (game.config g) userSettings))
     && inRange 5 50 (winFoodCount (config.init (game.config g) userSettings)) = false ->
     game.init g userSettings =
       Ok (game.setConfig g (config.init (game.config g) userSettings)))
    /\ (inRange 10 30 (rowsCount (config.init (game.config g) userSettings))
        && inRange 10 30 (colsCount (config.init (game.config g) userSettings))
        && inRange 1 10 (speed (config.init (game.config g) userSettings))
        && inRange 5 50 (winFoodCount (config.init (game.config g) userSettings)) = true ->
        game.init g userSettings =
          game.reset
            (game.setScore
               (game.setConfig g (config.init (game.config g) userSettings)) 0)
        /\ forall g',
             game.init g userSettings = Ok g' ->
             game.status g' = "stopped"
             /\ game.score g' = 0
             /\ game.config g' = config.init (game.config g) userSettings
             /\ bodyLength g' = 1).
Proof.
  intros g userSettings. rewrite <- validate_isValid. split; intro Hvalid.
  - unfold game.init. cbn [game.config game.setConfig]. rewrite Hvalid. reflexivity.
  - assert (Hinit : game.init g userSettings =
                    game.reset
                      (game.setScore
                         (game.setConfig g (config.init (game.config g) userSettings)) 0)).
    { unfold game.init. cbn [game.config game.setConfig]. rewrite Hvalid. reflexivity. }
    split; [exact Hinit |].
    intros g' Hg'. rewrite Hinit in Hg'.
    destruct (reset_placed _ g' Hg') as [point [draws [-> _]]].
    repeat split.
    + apply (stop_frame (game.setScore
                 (game.setConfig g (config.init (game.config g) userSettings)) 0)).
    + apply (stop_frame (game.setScore
                 (game.setConfig g (config.init (game.config g) userSettings)) 0)).
Qed.

(** X18.  [isOnPoint] tests membership and the food holds the coordinates
    last set: [snake.isOnPoint] of a point is true exactly when the point is a
    segment of the body; the food's coordinates after [setCoordinates] are the
    point given, [food.isOnPoint] is then true of that point and of no other,
    food that was never placed is on no point, and [food.isOnPoint] of
    [undefined] throws. *)
Theorem isOnPoint_tests_membership :
  forall (sn : snake.t) (f : food.t) (p q : Point),
    (snake.isOnPoint sn (Some q) = Ok true <-> In q (snake.getBody sn))
    /\ (snake.isOnPoint sn (Some q) = Ok false <-> ~ In q (snake.getBody sn))
    /\ food.getCoordinates (food.setCoordinates f p) = Some p
    /\ (food.isOnPoint (food.setCoordinates f p) (Some q) = Ok true <-> q = p)
    /\ food.isOnPoint None (Some q) = Ok false
    /\ food.isOnPoint f None = Fail TypeError.
Proof.
  intros sn f p q.
  split; [apply isOnPoint_true |]. split; [apply isOnPoint_false |].
  assert (Hset : food.setCoordinates f p = Some p)
    by (unfold food.setCoordinates; rewrite point_eta; reflexivity).
  split; [exact Hset |]. split.
  - rewrite Hset, food_isOnPoint_true. split; congruence.
  - split; reflexivity.
Qed.

(** ** The search for a free cell *)

(** The loop uses up a whole number of pairs, at least one. *)
Lemma sample_used (exclude : list Point) (cols rows : Z) (draws : list Q) :
  forall p rest,
    game.sample exclude cols rows draws = Ok (p, rest) ->
    exists used,
      draws = used ++ rest /\ used <> [] /\ Nat.Even (List.length used).
Proof.
  induction draws as [| r | rx ry draws IH] using draws_pair_ind;
    intros p rest H; simpl in H; try discriminate H.
  destruct (existsb _ exclude); simpl in H.
  - destruct (IH p rest H) as [used [-> [_ [k Hk]]]].
    exists (rx :: ry :: used). split; [reflexivity |]. split; [discriminate |].
    exists (S k). simpl. lia.
  - injection H as _ <-. exists [rx; ry]. split; [reflexivity |].
    split; [discriminate |]. exists 1%nat. reflexivity.
Qed.

(** X19.  [getRandomFreeCoordinates] returns exactly when some pair of the
    values to come is turned into a cell outside the exclude list; it never
    throws, and fails to return only by using up the supply.  When it
    returns, the point is not the current food's cell, nothing of the game
    has changed but the random supply, and a whole number of pairs of values,
    at least one, has been used from its front. *)
Theorem getRandomFreeCoordinates_returns_iff_free_draw :
  forall g : game.t,
    ((exists p g', game.getRandomFreeCoordinates g = Ok (p, g')) <->
       findsFree (game.exclude g) (config.getColsCount (game.config g))
         (config.getRowsCount (game.config g)) (game.randoms g))
    /\ (forall e, game.getRandomFreeCoordinates g = Fail e -> e = OutOfDraws)
    /\ (forall p g',
          game.getRandomFreeCoordinates g = Ok (p, g') ->
          food.getCoordinates (game.food g) <> Some p
          /\ g' = game.setRandoms g (game.randoms g')
          /\ exists used,
               game.randoms g = used ++ game.randoms g'
               /\ used <> [] /\ Nat.Even (List.length used)).
Proof.
  intro g. split; [| split].
  - split.
    + intros [p [g' H]]. apply getRandomFreeCoordinates_Ok in H.
      destruct H as [rest [H _]]. exact (sample_returned _ _ _ _ _ _ H).
    + intro H. destruct (sample_returns _ _ _ _ H) as [p [rest Hsample]].
      exists p, (game.setRandoms g rest). apply getRandomFreeCoordinates_Ok.
      exists rest. split; [exact Hsample | reflexivity].
  - intros e H. unfold game.getRandomFreeCoordinates in H.
    destruct (game.sample _ _ _ _) as [[p rest] | e'] eqn:Hsample;
      [discriminate H |].
    simpl in H. injection H as <-. exact (sample_fails _ _ _ _ _ Hsample).
  - intros p g' H. apply getRandomFreeCoordinates_Ok in H.
    destruct H as [rest [Hsample ->]]. split; [| split; [reflexivity |]].
    + intro Hfood. apply sample_free in Hsample. apply Hsample, exclude_In.
      left. exact Hfood.
    + exact (sample_used _ _ _ _ _ _ Hsample).
Qed.

(** ** Ticks *)

(** X20.  A tick whose next head point is neither on the snake nor on the
    food only moves the snake: it returns, the body is the next head point
    followed by the old body without its last segment, the direction is
    recorded as the last step's, and the food, the score, the status, the
    settings, the intervals and the random supply are as they were. *)
Theorem plain_tick_only_moves_the_snake :
  forall (g : game.t) (head : Point),
    snake.getNextStepHeadPoint (game.snake g) = Ok (Some head) ->
    game.canMakeStep g = Ok true ->
    food.isOnPoint (game.food g) (Some head) = Ok false ->
    exists g',
      game.tickHandler g = Ok g'
      /\ snake.body (game.snake g') = head :: removelast (snake.body (game.snake g))
      /\ snake.lastStepDirection (game.snake g') = snake.direction (game.snake g)
      /\ snake.direction (game.snake g') = snake.direction (game.snake g)
      /\ game.food g' = game.food g
      /\ game.score g' = game.score g
      /\ game.status g' = game.status g
      /\ game.config g' = game.config g
      /\ game.tickInterval g' = game.tickInterval g
      /\ game.intervals g' = game.intervals g
      /\ game.randoms g' = game.randoms g.
Proof.
  intros g head Hhead Hcan Hfood.
  apply (canMakeStep_true g head Hhead) in Hcan.
  apply food_isOnPoint_false in Hfood.
  exists (game.setSnake g (stepped (game.snake g) head)).
  split; [exact (tick_moves g head Hhead Hcan Hfood) |].
  split; [| repeat split].
  unfold stepped. cbn [game.snake game.setSnake snake.body].
  apply removelast_cons.
  destruct (nextStep_defined _ _ Hhead) as [f [r [-> _]]]. discriminate.
Qed.

Lemma plain_tick_only_moves_the_snake_witness :
  snake.getNextStepHeadPoint (game.snake afterFirstFood) = Ok (Some {| x := 10; y := 8 |})
  /\ exists g',
       game.tickHandler afterFirstFood = Ok g'
       /\ snake.body (game.snake g') = [ {| x := 10; y := 8 |}; {| x := 10; y := 9 |} ]
       /\ game.score g' = 1.
Proof.
  split; [reflexivity |].
  destruct (plain_tick_only_moves_the_snake afterFirstFood {| x := 10; y := 8 |}
              eq_refl eq_refl eq_refl) as [g' [Htick [Hbody [_ [_ [_ [Hscore _]]]]]]].
  exists g'. split; [exact Htick |]. split; [exact Hbody | exact Hscore].
Defined.

(** ** There is always a free cell *)

Lemma reset_returns (g : game.t) :
  findsFree
    (match game.food g with
     | Some foodPoint => foodPoint :: game.getStartSnakeBody g
     | None => game.getStartSnakeBody g
     end)
    (colsCount (game.config g)) (rowsCount (game.config g)) (game.randoms g) ->
  exists g', game.reset g = Ok g'.
Proof.
  intro Hdraws. destruct (sample_returns _ _ _ _ Hdraws) as [p [rest Hsample]].
  unfold game.reset, game.getRandomFreeCoordinates.
  assert (Hsame :
            game.sample
              (game.exclude
                 (game.setSnake (game.setScore (game.stop g)
                                   (score.drop (game.score (game.stop g))))
                    (snake.init
                       (game.getStartSnakeBody
                          (game.setScore (game.stop g)
                             (score.drop (game.score (game.stop g)))))
                       "up"
                       (config.getColsCount
                          (game.config
                             (game.setScore (game.stop g)
                                (score.drop (game.score (game.stop g))))) - 1)
                       (config.getRowsCount
                          (game.config
                             (game.setScore (game.stop g)
                                (score.drop (game.score (game.stop g))))) - 1))))
              (config.getColsCount (game.config (game.stop g)))
              (config.getRowsCount (game.config (game.stop g)))
              (game.randoms (game.stop g)) = Ok (p, rest)).
  { rewrite <- Hsample. unfold game.stop, game.exclude.
    cbn [game.tickInterval game.setStatus].
    destruct (game.tickInterval g); reflexivity. }
  cbn [game.config game.randoms game.setSnake game.setScore] in *.
  rewrite Hsame. cbn [bind]. eexists. reflexivity.
Qed.

(** The snake of a started game is no longer than [winFoodCount] while the
    game is not finished, and never longer than that plus one. *)
Lemma reachable_length (g : game.t) :
  reachable g ->
  bodyLength g <= winFoodCount (game.config g) + 1
  /\ (game.status g <> "finished" -> bodyLength g <= winFoodCount (game.config g)).
Proof.
  intro Hreach. pose proof Hreach as Hreach0.
  induction Hreach as [g0 g userSettings _ Hvalid Hinit | g g' Hg IH [e He Hh]].
  - destruct (reachable_playable g Hreach0) as [_ [[Hv _] _]].
    apply valid_ranges in Hv.
    unfold game.init in Hinit. cbn [game.config game.setConfig] in Hinit.
    rewrite Hvalid in Hinit.
    destruct (reset_score_length _ g Hinit) as [_ Hlen]. rewrite Hlen. lia.
  - specialize (IH Hg). destruct IH as [IH1 IH2].
    rewrite (handle_config e g g' Hh).
    pose proof (handle_score_length e g g' Hh) as Hev.
    destruct e as [| | | code]; simpl in Hh.
    + simpl in He.
      assert (Hplaying : game.status g = "playing").
      { destruct (reachable_invariant g Hg) as [[Hp _] | [_ Hnone]];
          [exact Hp | contradiction]. }
      assert (Hlen : bodyLength g <= winFoodCount (game.config g))
        by (apply IH2; rewrite Hplaying; discriminate).
      destruct (tick_cases g g' Hh) as [head [Hhead Hcases]].
      destruct Hcases as [[_ ->] | [[_ [_ [point [draws ->]]]] | [_ [_ ->]]]].
      * unfold bodyLength. destruct (finish_frame g) as [_ [-> [_ [_ [_ ->]]]]].
        unfold bodyLength in Hlen. split; [lia | intro H; contradiction H; reflexivity].
      * unfold bodyLength, fed in *.
        cbn [game.snake game.status snake.body List.length].
        destruct (Z.gtb_spec
                    (Z.of_nat (List.length (snake.body (game.snake g)) + 1))
                    (winFoodCount (game.config g))) as [Hgt | Hle].
        -- split; [lia | intro H; contradiction H; reflexivity].
        -- split; [lia | intros _; lia].
      * unfold bodyLength, stepped in *.
        cbn [game.snake game.setSnake game.status snake.body].
        rewrite removelast_cons_length. split; [lia | intros _; exact Hlen].
    + injection Hh as <-. destruct Hev as [_ Hlen]. rewrite Hlen.
      split; [exact IH1 |]. intro Hst. apply IH2. intro Hfin. apply Hst.
      unfold game.playClickHandler, status.isPlaying, status.isStopped.
      rewrite Hfin. exact Hfin.
    + destruct Hev as [_ Hlen]. rewrite Hlen.
      destruct (reachable_playable g Hg) as [_ [[Hv _] _]].
      apply valid_ranges in Hv. lia.
    + injection Hh as <-. destruct Hev as [_ Hlen]. rewrite Hlen.
      destruct (keyDownHandler_frame g code) as [_ [_ [-> _]]].
      split; assumption.
Qed.

Lemma unitInterval_zero : unitInterval 0.
Proof. split; [apply Qle_refl | reflexivity]. Qed.

(** X21.  The search for a free cell cannot be stuck for lack of one.  In
    every state of a started game the snake has at most [winFoodCount + 1]
    segments, the exclude list is shorter than the board has cells, and for
    every event that can come next there are two values of the unit interval
    with which, as the next values of [Math.random()], its handler returns:
    no handler of a started game throws or loops for every supply. *)
Theorem started_game_can_always_go_on :
  forall g : game.t,
    reachable g ->
    bodyLength g <= config.getWinFoodCount (game.config g) + 1
    /\ Z.of_nat (List.length (game.exclude g)) <
         config.getColsCount (game.config g) * config.getRowsCount (game.config g)
    /\ forall e : event,
         enabled e g ->
         exists rx ry g',
           unitInterval rx /\ unitInterval ry
           /\ handle e (game.setRandoms g [rx; ry]) = Ok g'.
Proof.
  intros g Hreach.
  destruct (reachable_length g Hreach) as [Hlen1 Hlen2].
  destruct (reachable_playable g Hreach) as [Hwf [[Hvalid _] _]].
  apply valid_ranges in Hvalid. destruct Hvalid as [Hrows [Hcols [_ Hwin]]].
  assert (Hcells : 100 <= colsCount (game.config g) * rowsCount (game.config g)) by nia.
  split; [exact Hlen1 |]. split.
  { unfold game.exclude, food.getCoordinates, snake.getBody, bodyLength,
      config.getColsCount, config.getRowsCount in *.
    destruct (game.food g); cbn [List.length]; lia. }
  intros e He. destruct e as [| | | code].
  - simpl in He.
    assert (Hplaying : game.status g = "playing").
    { destruct (reachable_invariant g Hreach) as [[Hp _] | [_ Hnone]];
        [exact Hp | contradiction]. }
    assert (Hlen : bodyLength g <= winFoodCount (game.config g))
      by (apply Hlen2; rewrite Hplaying; discriminate).
    destruct (wellFormed_has_head g Hwf) as [head Hhead].
    destruct (snake.isOnPoint (game.snake g) (Some head)) as [[|] | e] eqn:Hon;
      [| | discriminate Hon].
    + exists 0%Q, 0%Q. eexists.
      split; [exact unitInterval_zero |]. split; [exact unitInterval_zero |].
      apply (tick_collides (game.setRandoms g [0%Q; 0%Q]) head Hhead).
      apply isOnPoint_true, Hon.
    + apply isOnPoint_false in Hon.
      destruct (food.isOnPoint (game.food g) (Some head)) as [[|] | e] eqn:Hfood.
      * apply food_isOnPoint_true in Hfood.
        apply (eating_tick_can_return g head Hhead Hon Hfood); lia.
      * apply food_isOnPoint_false in Hfood.
        exists 0%Q, 0%Q. eexists.
        split; [exact unitInterval_zero |]. split; [exact unitInterval_zero |].
        exact (tick_moves (game.setRandoms g [0%Q; 0%Q]) head Hhead Hon Hfood).
      * unfold food.isOnPoint in Hfood. destruct (game.food g); discriminate Hfood.
  - exists 0%Q, 0%Q. eexists.
    split; [exact unitInterval_zero |]. split; [exact unitInterval_zero |]. reflexivity.
  - destruct (findsFree_possible
                (match game.food g with
                 | Some foodPoint => foodPoint :: game.getStartSnakeBody g
                 | None => game.getStartSnakeBody g
                 end)
                (colsCount (game.config g)) (rowsCount (game.config g)))
      as [rx [ry [Hrx [Hry Hdraws]]]]; [lia | lia | |].
    { unfold game.getStartSnakeBody. destruct (game.food g); cbn [List.length]; lia. }
    destruct (reset_returns (game.setRandoms g [rx; ry]) Hdraws) as [g' Hg'].
    exists rx, ry, g'. split; [exact Hrx |]. split; [exact Hry | exact Hg'].
  - exists 0%Q, 0%Q. eexists.
    split; [exact unitInterval_zero |]. split; [exact unitInterval_zero |]. reflexivity.
Qed.

Lemma started_game_can_always_go_on_witness :
  reachable afterFirstFood
  /\ enabled NewGameClick afterFirstFood
  /\ exists rx ry g',
       unitInterval rx /\ unitInterval ry
       /\ handle NewGameClick (game.setRandoms afterFirstFood [rx; ry]) = Ok g'.
Proof.
  split; [exact afterFirstFood_reachable |]. split; [exact I |].
  exact (proj2 (proj2 (started_game_can_always_go_on afterFirstFood
                         afterFirstFood_reachable)) NewGameClick I).
Defined.

(** ** The display *)

Lemma getCell_setClasses (m : map.t) (key p : Point)
    (change : list string -> list string) :
  map.getCell (map.setClasses m key change) p =
    if samePoint p key then option_map change (map.getCell m p)
    else map.getCell m p.
Proof.
  unfold map.getCell, map.setClasses. cbn [map.cells].
  induction (map.cells m) as [| [k classes] l IH]; cbn [List.map find fst snd].
  - destruct (samePoint p key); reflexivity.
  - destruct (samePoint k key) eqn:Hkey; cbn [fst snd];
      destruct (samePoint k p) eqn:Hp; cbn [snd].
    + apply samePoint_eq in Hkey, Hp. subst. rewrite samePoint_refl. reflexivity.
    + exact IH.
    + apply samePoint_eq in Hp. subst k. rewrite Hkey. reflexivity.
    + exact IH.
Qed.

Lemma getCell_cleared (l : list Point) (m : map.t) (p : Point) :
  map.getCell
    (fold_left (fun m cell => map.setClasses m cell (fun _ => ["cell"])) l m) p =
    if existsb (fun cell => samePoint p cell) l
    then option_map (fun _ => ["cell"]) (map.getCell m p)
    else map.getCell m p.
Proof.
  revert m. induction l as [| cell l IH]; intro m; cbn [fold_left existsb];
    [reflexivity |].
  rewrite IH, getCell_setClasses.
  destruct (samePoint p cell); cbn [orb];
    destruct (existsb _ l); destruct (map.getCell m p); reflexivity.
Qed.

Lemma clearUsedCells_clean (m : map.t) (p : Point) :
  clean m ->
  map.getCell (map.clearUsedCells m) p =
    option_map (fun _ => ["cell"]) (map.getCell m p).
Proof.
  intro Hclean. unfold map.clearUsedCells. rewrite getCell_cleared.
  destruct (existsb _ (map.usedCells m)) eqn:Hused; [reflexivity |].
  destruct (map.getCell m p) as [classes |] eqn:Hcell; [| reflexivity].
  cbn. f_equal. apply (Hclean p classes Hcell).
  apply not_excluded_In. exact Hused.
Qed.

Lemma classListAdd_twice (token : string) (classes : list string) :
  map.classListAdd token (map.classListAdd token classes) =
    map.classListAdd token classes.
Proof.
  unfold map.classListAdd.
  destruct (existsb (String.eqb token) classes) eqn:Hin; [rewrite Hin; reflexivity |].
  rewrite existsb_app. cbn. rewrite String.eqb_refl, orb_true_r. reflexivity.
Qed.

(** The rest of the [forEach], after the head. *)
Lemma drawSnake_rest (points : list Point) :
  forall (m m' : map.t) (idx : nat),
    idx <> 0%nat ->
    map.drawSnake m points idx = Ok m' ->
    (forall p,
       map.getCell m' p =
         option_map
           (fun classes =>
              if existsb (fun point => samePoint p point) points
              then map.classListAdd "snakeBody" classes else classes)
           (map.getCell m p))
    /\ map.usedCells m' = map.usedCells m ++ points.
Proof.
  induction points as [| point rest IH]; intros m m' idx Hidx Hdraw;
    cbn [map.drawSnake] in Hdraw.
  - injection Hdraw as <-. split; [| symmetry; apply app_nil_r].
    intro p. destruct (map.getCell m p); reflexivity.
  - destruct (map.getCell m point) as [c |] eqn:Hcell; [| discriminate Hdraw].
    apply Nat.eqb_neq in Hidx. rewrite Hidx in Hdraw.
    apply IH in Hdraw; [| discriminate]. destruct Hdraw as [Hcells Hused].
    split.
    + intro p. rewrite Hcells. cbn [existsb].
      change (map.getCell (map.pushUsedCell
                (map.setClasses m point (map.classListAdd "snakeBody")) point) p)
        with (map.getCell (map.setClasses m point (map.classListAdd "snakeBody")) p).
      rewrite getCell_setClasses.
      destruct (samePoint p point); cbn [orb];
        destruct (map.getCell m p); cbn [option_map]; try reflexivity.
      destruct (existsb _ rest); [rewrite classListAdd_twice |]; reflexivity.
    + rewrite Hused. cbn [map.usedCells map.pushUsedCell map.setClasses].
      rewrite <- app_assoc. reflexivity.
Qed.

Lemma drawSnake_spec (points : list Point) (m m' : map.t) :
  map.drawSnake m points 0 = Ok m' ->
  (forall p,
     map.getCell m' p =
       option_map
         (fun classes =>
            let classes :=
              if match points with head :: _ => samePoint p head | [] => false end
              then map.classListAdd "snakeHead" classes else classes in
            if existsb (fun point => samePoint p point) (tl points)
            then map.classListAdd "snakeBody" classes else classes)
         (map.getCell m p))
  /\ map.usedCells m' = map.usedCells m ++ points.
Proof.
  destruct points as [| head rest]; cbn [map.drawSnake tl]; intro Hdraw.
  - injection Hdraw as <-. split; [| symmetry; apply app_nil_r].
    intro p. destruct (map.getCell m p); reflexivity.
  - destruct (map.getCell m head) as [c |] eqn:Hcell; [| discriminate Hdraw].
    cbn [Nat.eqb] in Hdraw.
    apply drawSnake_rest in Hdraw; [| discriminate]. destruct Hdraw as [Hcells Hused].
    split.
    + intro p. rewrite Hcells.
      change (map.getCell (map.pushUsedCell
                (map.setClasses m head (map.classListAdd "snakeHead")) head) p)
        with (map.getCell (map.setClasses m head (map.classListAdd "snakeHead")) p).
      rewrite getCell_setClasses.
      destruct (samePoint p head); destruct (map.getCell m p); reflexivity.
    + rewrite Hused. cbn [map.usedCells map.pushUsedCell map.setClasses].
      rewrite <- app_assoc. reflexivity.
Qed.

(** The [forEach] returns exactly when every point has a cell. *)
Lemma drawSnake_returns (points : list Point) :
  forall (m : map.t) (idx : nat),
    (exists m', map.drawSnake m points idx = Ok m') <->
    (forall p, In p points -> map.getCell m p <> None).
Proof.
  induction points as [| point rest IH]; intros m idx; cbn [map.drawSnake].
  - split; [intros _ p [] | intros _; eexists; reflexivity].
  - destruct (map.getCell m point) as [c |] eqn:Hcell.
    + rewrite IH. split.
      * intros H p [<- | Hp]; [rewrite Hcell; discriminate |].
        specialize (H p Hp).
        change (map.getCell (map.pushUsedCell
                  (map.setClasses m point
                     (map.classListAdd (if Nat.eqb idx 0 then "snakeHead"
                                        else "snakeBody"))) point) p)
          with (map.getCell (map.setClasses m point
                  (map.classListAdd (if Nat.eqb idx 0 then "snakeHead"
                                     else "snakeBody"))) p) in H.
        rewrite getCell_setClasses in H.
        destruct (samePoint p point); destruct (map.getCell m p);
          (discriminate || exact H).
      * intros H p Hp. specialize (H p (or_intror Hp)).
        change (map.getCell (map.pushUsedCell
                  (map.setClasses m point
                     (map.classListAdd (if Nat.eqb idx 0 then "snakeHead"
                                        else "snakeBody"))) point) p)
          with (map.getCell (map.setClasses m point
                  (map.classListAdd (if Nat.eqb idx 0 then "snakeHead"
                                     else "snakeBody"))) p).
        rewrite getCell_setClasses.
        destruct (samePoint p point); destruct (map.getCell m p);
          (discriminate || exact H).
    + split; [intros [m' H]; discriminate H |].
      intro H. exfalso. apply (H point); [left; reflexivity | exact Hcell].
Qed.

Lemma drawSnake_fails (points : list Point) :
  forall (m : map.t) (idx : nat) (e : failure),
    map.drawSnake m points idx = Fail e -> e = TypeError.
Proof.
  induction points as [| point rest IH]; intros m idx e; cbn [map.drawSnake];
    [discriminate |].
  destruct (map.getCell m point); [apply IH | intro H; injection H as <-; reflexivity].
Qed.

Lemma init_entries (rows cols : Z) (entry : Point * list string) :
  In entry (map.cells (map.init rows cols)) <->
  snd entry = ["cell"] /\ onBoard cols rows (fst entry).
Proof.
  unfold map.init, map.rowOfCells, onBoard. cbn [map.cells].
  rewrite in_flat_map. split.
  - intros [row [Hrow Hin]]. apply in_map_iff in Hin. destruct Hin as [col [<- Hcol]].
    apply in_seq in Hrow, Hcol. cbn [fst snd x y]. split; [reflexivity | lia].
  - intros [Hsnd [Hx Hy]]. destruct entry as [[px py] classes].
    cbn [fst snd x y] in *. subst classes.
    exists (Z.to_nat py). split; [apply in_seq; lia |].
    apply in_map_iff. exists (Z.to_nat px). split; [| apply in_seq; lia].
    rewrite !Z2Nat.id by lia. reflexivity.
Qed.

Lemma getCell_init (rows cols : Z) (p : Point) :
  (onBoard cols rows p -> map.getCell (map.init rows cols) p = Some ["cell"])
  /\ (~ onBoard cols rows p -> map.getCell (map.init rows cols) p = None)
  /\ map.usedCells (map.init rows cols) = []
  /\ clean (map.init rows cols).
Proof.
  assert (Hcell : forall q classes,
            map.getCell (map.init rows cols) q = Some classes ->
            classes = ["cell"] /\ onBoard cols rows q).
  { intros q classes. unfold map.getCell.
    destruct (find _ _) as [entry |] eqn:Hfind; [| discriminate].
    intro H. injection H as <-. apply find_some in Hfind.
    destruct Hfind as [Hin Hsame]. apply samePoint_eq in Hsame. subst q.
    apply init_entries. exact Hin. }
  split; [| split; [| split]].
  - intro Hon. destruct (map.getCell (map.init rows cols) p) as [classes |] eqn:Hget.
    + destruct (Hcell p classes Hget) as [-> _]. reflexivity.
    + exfalso. unfold map.getCell in Hget.
      destruct (find _ _) as [entry |] eqn:Hfind; [discriminate Hget |].
      assert (Hin : In (p, ["cell"]) (map.cells (map.init rows cols)))
        by (apply init_entries; split; [reflexivity | exact Hon]).
      apply (find_none _ _ Hfind) in Hin. cbn [fst] in Hin.
      rewrite samePoint_refl in Hin. discriminate Hin.
  - intro Hoff. destruct (map.getCell (map.init rows cols) p) as [classes |] eqn:Hget;
      [| reflexivity].
    destruct (Hcell p classes Hget) as [_ Hon]. contradiction.
  - reflexivity.
  - intros q classes Hget _. apply (Hcell q classes Hget).
Qed.

(** X22.  [map.init] creates exactly the cells of the board: after it the
    cell of a point exists exactly when the point is on the board of the
    given numbers of columns and rows, every cell has the one class cell, and
    no cell is a used cell. *)
Theorem map_init_creates_the_board :
  forall (rowsCount colsCount : Z) (p : Point),
    (onBoard colsCount rowsCount p ->
       map.getCell (map.init rowsCount colsCount) p = Some ["cell"])
    /\ (~ onBoard colsCount rowsCount p ->
          map.getCell (map.init rowsCount colsCount) p = None)
    /\ map.usedCells (map.init rowsCount colsCount) = []
    /\ clean (map.init rowsCount colsCount).
Proof. exact getCell_init. Qed.

Lemma shown_classes (body : list Point) (foodPoint p : Point) :
  In "cell" (shown body foodPoint p)
  /\ (In "snakeHead" (shown body foodPoint p) <-> hd_error body = Some p)
  /\ (In "snakeBody" (shown body foodPoint p) <-> In p (tl body))
  /\ (In "food" (shown body foodPoint p) <-> p = foodPoint).
Proof.
  unfold shown.
  assert (Hhead : (match body with head :: _ => samePoint p head | [] => false end) = true
                  <-> hd_error body = Some p).
  { destruct body as [| head rest]; cbn; [split; discriminate |].
    rewrite samePoint_eq. split; [intros ->; reflexivity | intro H; congruence]. }
  pose proof (excluded_In p (tl body)) as Htail.
  pose proof (samePoint_eq p foodPoint) as Hfood.
  destruct (match body with head :: _ => samePoint p head | [] => false end);
    destruct (existsb _ (tl body)); destruct (samePoint p foodPoint);
    cbn; (split; [tauto |]);
    (split; [| split]); split; intro H;
    try (apply Hhead; reflexivity); try (apply Htail; reflexivity);
    try (apply Hfood; reflexivity);
    try (repeat destruct H as [H | H]; discriminate H || contradiction);
    try (apply Hhead in H; discriminate H);
    try (apply Htail in H; discriminate H);
    try (apply Hfood in H; discriminate H);
    tauto.
Qed.

Lemma render_cells (m m' : map.t) (body : list Point) (foodPoint : Point) :
  clean m ->
  map.render m body (Some foodPoint) = Ok m' ->
  (forall p,
     map.getCell m' p =
       option_map (fun _ => shown body foodPoint p) (map.getCell m p))
  /\ map.usedCells m' = body ++ [foodPoint].
Proof.
  intros Hclean Hrender. unfold map.render in Hrender. inv_bind Hrender.
  destruct (map.getCell a foodPoint) as [c |] eqn:Hfood; [| discriminate Hrender].
  injection Hrender as <-.
  apply drawSnake_spec in Hr. destruct Hr as [Hcells Hused].
  split.
  - intro p.
    change (map.getCell (map.pushUsedCell
              (map.setClasses a foodPoint (map.classListAdd "food")) foodPoint) p)
      with (map.getCell (map.setClasses a foodPoint (map.classListAdd "food")) p).
    rewrite getCell_setClasses, Hcells.
    change (map.getCell
              {| map.cells := map.cells (map.clearUsedCells m); map.usedCells := [] |} p)
      with (map.getCell (map.clearUsedCells m) p).
    rewrite (clearUsedCells_clean m p Hclean).
    destruct (map.getCell m p) as [classes |];
      [| destruct (samePoint p foodPoint); reflexivity].
    unfold shown. cbn [option_map].
    destruct (match body with head :: _ => samePoint p head | [] => false end);
      destruct (existsb _ (tl body)); destruct (samePoint p foodPoint); reflexivity.
  - cbn [map.usedCells map.pushUsedCell map.setClasses]. rewrite Hused. reflexivity.
Qed.

Lemma render_keeps_clean (m m' : map.t) (body : list Point) (foodPoint : Point) :
  clean m ->
  map.render m body (Some foodPoint) = Ok m' ->
  clean m'.
Proof.
  intros Hclean Hrender.
  destruct (render_cells m m' body foodPoint Hclean Hrender) as [Hcells Hused].
  intros p classes Hget Hunused. rewrite Hcells in Hget.
  destruct (map.getCell m p); [| discriminate Hget]. injection Hget as <-.
  rewrite Hused in Hunused. unfold shown.
  destruct (match body with head :: _ => samePoint p head | [] => false end) eqn:Hh.
  - exfalso. apply Hunused, in_or_app. left. destruct body; [discriminate Hh |].
    apply samePoint_eq in Hh. subst. left. reflexivity.
  - destruct (existsb _ (tl body)) eqn:Ht.
    + exfalso. apply Hunused, in_or_app. left. apply excluded_In in Ht.
      destruct body; [destruct Ht | right; exact Ht].
    + destruct (samePoint p foodPoint) eqn:Hf; [| reflexivity].
      exfalso. apply Hunused, in_or_app. right. left. symmetry.
      apply samePoint_eq, Hf.
Qed.

(** X23.  [map.render] shows the snake and the food and nothing else.  On a
    display whose unused cells are plain, whenever it returns: every cell
    keeps existing or not existing; the classes of an existing cell are cell,
    then snakeHead exactly if the cell is that of the first segment, then
    snakeBody exactly if it is that of a later segment, then food exactly if
    it is the food's; the used cells are those of the segments, in order,
    and of the food; and the unused cells are plain again. *)
Theorem render_shows_snake_and_food :
  forall (m m' : map.t) (body : list Point) (foodPoint : Point),
    clean m ->
    map.render m body (Some foodPoint) = Ok m' ->
    (forall p, map.getCell m' p = None <-> map.getCell m p = None)
    /\ (forall p classes,
          map.getCell m' p = Some classes ->
          classes = shown body foodPoint p
          /\ In "cell" classes
          /\ (In "snakeHead" classes <-> hd_error body = Some p)
          /\ (In "snakeBody" classes <-> In p (tl body))
          /\ (In "food" classes <-> p = foodPoint))
    /\ map.usedCells m' = body ++ [foodPoint]
    /\ clean m'.
Proof.
  intros m m' body foodPoint Hclean Hrender.
  destruct (render_cells m m' body foodPoint Hclean Hrender) as [Hcells Hused].
  split; [| split; [| split]].
  - intro p. rewrite Hcells. destruct (map.getCell m p); cbn; split; congruence.
  - intros p classes Hget. rewrite Hcells in Hget.
    destruct (map.getCell m p); [| discriminate Hget]. injection Hget as <-.
    split; [reflexivity | apply shown_classes].
  - exact Hused.
  - exact (render_keeps_clean m m' body foodPoint Hclean Hrender).
Qed.

Lemma render_shows_snake_and_food_witness :
  clean smallDisplay
  /\ exists m',
       map.render smallDisplay [ {| x := 1; y := 1 |}; {| x := 1; y := 2 |} ]
         (Some {| x := 0; y := 0 |}) = Ok m'
       /\ map.usedCells m' =
            [ {| x := 1; y := 1 |}; {| x := 1; y := 2 |}; {| x := 0; y := 0 |} ].
Proof.
  pose proof (proj2 (proj2 (proj2 (getCell_init 3 3 {| x := 0; y := 0 |}))))
    as Hclean.
  split; [exact Hclean |].
  destruct (map.render smallDisplay [ {| x := 1; y := 1 |}; {| x := 1; y := 2 |} ]
              (Some {| x := 0; y := 0 |})) as [m' | e] eqn:Hrender.
  - exists m'. split; [reflexivity |].
    exact (proj1 (proj2 (proj2
             (render_shows_snake_and_food smallDisplay m' _ _ Hclean Hrender)))).
  - exfalso. vm_compute in Hrender. discriminate Hrender.
Defined.

Lemma render_returns_or_throws (m : map.t) (body : list Point)
    (foodPoint : option Point) :
  ((exists m', map.render m body foodPoint = Ok m') <->
     (forall p, In p body -> map.getCell m p <> None)
     /\ exists f, foodPoint = Some f /\ map.getCell m f <> None)
  /\ (forall e, map.render m body foodPoint = Fail e -> e = TypeError).
Proof.
  assert (Hdomain : forall p,
            map.getCell
              {| map.cells := map.cells (map.clearUsedCells m); map.usedCells := [] |} p
              = None <-> map.getCell m p = None).
  { intro p.
    change (map.getCell
              {| map.cells := map.cells (map.clearUsedCells m); map.usedCells := [] |} p)
      with (map.getCell (map.clearUsedCells m) p).
    unfold map.clearUsedCells. rewrite getCell_cleared.
    destruct (existsb _ _); destruct (map.getCell m p); cbn; split; congruence. }
  split.
  - unfold map.render. split.
    + intros [m' Hrender]. inv_bind Hrender.
      destruct foodPoint as [f |]; [| discriminate Hrender].
      destruct (map.getCell a f) as [c |] eqn:Hfood; [| discriminate Hrender].
      pose proof Hr as Hdraw. apply drawSnake_spec in Hdraw. destruct Hdraw as [Hcells _].
      split.
      * intros p Hp Hnone. apply Hdomain in Hnone. revert Hnone.
        apply (proj1 (drawSnake_returns body _ 0%nat)); [| exact Hp].
        exists a. exact Hr.
      * exists f. split; [reflexivity |]. intro Hnone. apply Hdomain in Hnone.
        rewrite Hcells, Hnone in Hfood. discriminate Hfood.
    + intros [Hbody [f [-> Hfood]]].
      destruct (proj2 (drawSnake_returns body
                  {| map.cells := map.cells (map.clearUsedCells m);
                     map.usedCells := [] |} 0%nat)) as [a Ha].
      { intros p Hp Hnone. apply Hdomain in Hnone. exact (Hbody p Hp Hnone). }
      rewrite Ha. cbn [bind].
      apply drawSnake_spec in Ha. destruct Ha as [Hcells _].
      destruct (map.getCell a f) as [c |] eqn:Hget; [eexists; reflexivity |].
      exfalso. rewrite Hcells in Hget.
      destruct (map.getCell
                  {| map.cells := map.cells (map.clearUsedCells m);
                     map.usedCells := [] |} f) eqn:Hm;
        [cbn in Hget; discriminate Hget |].
      apply Hdomain in Hm. exact (Hfood Hm).
  - intros e. unfold map.render.
    destruct (map.drawSnake _ body 0) as [a | e'] eqn:Hdraw; cbn [bind].
    + destruct foodPoint as [f |]; [| intro H; injection H as <-; reflexivity].
      destruct (map.getCell a f); [discriminate |].
      intro H; injection H as <-; reflexivity.
    + intro H. injection H as <-. exact (drawSnake_fails _ _ _ _ Hdraw).
Qed.

(** X24.  [map.render] returns exactly when every segment of the snake and
    the food have a cell on the display, and otherwise it throws a
    [TypeError]: for a point off the board, or for food that was never
    placed. *)
Theorem render_needs_every_point_on_the_display :
  forall (m : map.t) (body : list Point) (foodPoint : option Point),
    ((exists m', map.render m body foodPoint = Ok m') <->
       (forall p, In p body -> map.getCell m p <> None)
       /\ exists f, foodPoint = Some f /\ map.getCell m f <> None)
    /\ (forall e, map.render m body foodPoint = Fail e -> e = TypeError).
Proof. exact render_returns_or_throws. Qed.

(** X25.  [map.render] is a full redraw.  What it shows depends on the snake
    and the food given and not on what was displayed before, and rendering
    the same snake and food again returns and changes no cell and no used
    cell. *)
Theorem render_is_a_full_redraw :
  forall (m m1 : map.t) (body1 : list Point) (food1 : Point),
    clean m ->
    map.render m body1 (Some food1) = Ok m1 ->
    (exists m2,
       map.render m1 body1 (Some food1) = Ok m2
       /\ (forall p, map.getCell m2 p = map.getCell m1 p)
       /\ map.usedCells m2 = map.usedCells m1)
    /\ (forall body2 food2 m2 m2',
          map.render m1 body2 (Some food2) = Ok m2 ->
          map.render m body2 (Some food2) = Ok m2' ->
          (forall p, map.getCell m2 p = map.getCell m2' p)
          /\ map.usedCells m2 = map.usedCells m2').
Proof.
  intros m m1 body1 food1 Hclean Hrender.
  destruct (render_cells m m1 body1 food1 Hclean Hrender) as [Hcells1 Hused1].
  pose proof (render_keeps_clean m m1 body1 food1 Hclean Hrender) as Hclean1.
  split.
  - assert (Hagain : exists m2, map.render m1 body1 (Some food1) = Ok m2).
    { apply (proj1 (render_returns_or_throws m1 body1 (Some food1))).
      destruct (proj1 (proj1 (render_returns_or_throws m body1 (Some food1)))
                  (ex_intro _ m1 Hrender)) as [Hbody [f [Hf Hfood]]].
      injection Hf as <-.
      assert (Hsame : forall p, map.getCell m p <> None -> map.getCell m1 p <> None).
      { intros p Hp. rewrite Hcells1. destruct (map.getCell m p);
          [discriminate | contradiction Hp; reflexivity]. }
      split; [intros p Hp; apply Hsame, Hbody, Hp |].
      exists food1. split; [reflexivity | apply Hsame, Hfood]. }
    destruct Hagain as [m2 Hm2].
    exists m2. split; [exact Hm2 |].
    destruct (render_cells m1 m2 body1 food1 Hclean1 Hm2) as [Hcells2 Hused2].
    split; [| congruence].
    intro p. rewrite Hcells2, Hcells1. destruct (map.getCell m p); reflexivity.
  - intros body2 food2 m2 m2' H2 H2'.
    destruct (render_cells m1 m2 body2 food2 Hclean1 H2) as [Hc2 Hu2].
    destruct (render_cells m m2' body2 food2 Hclean H2') as [Hc2' Hu2'].
    split; [| congruence].
    intro p. rewrite Hc2, Hc2', Hcells1. destruct (map.getCell m p); reflexivity.
Qed.

Lemma render_is_a_full_redraw_witness :
  clean smallDisplay
  /\ exists m1 m2,
       map.render smallDisplay [ {| x := 1; y := 1 |}; {| x := 1; y := 2 |} ]
         (Some {| x := 0; y := 0 |}) = Ok m1
       /\ map.render m1 [ {| x := 1; y := 1 |}; {| x := 1; y := 2 |} ]
            (Some {| x := 0; y := 0 |}) = Ok m2
       /\ map.usedCells m2 = map.usedCells m1.
Proof.
  pose proof (proj2 (proj2 (proj2 (getCell_init 3 3 {| x := 0; y := 0 |}))))
    as Hclean.
  split; [exact Hclean |].
  destruct (map.render smallDisplay [ {| x := 1; y := 1 |}; {| x := 1; y := 2 |} ]
              (Some {| x := 0; y := 0 |})) as [m1 | e] eqn:Hrender.
  - destruct (proj1 (render_is_a_full_redraw smallDisplay m1 _ _ Hclean Hrender))
      as [m2 [Hagain [_ Hused]]].
    exists m1, m2. split; [reflexivity |]. split; [exact Hagain | exact Hused].
  - exfalso. vm_compute in Hrender. discriminate Hrender.
Defined.


